(** * ID-token validation of [jms_oidc_rp.utils]

    A shallow embedding of [src/jms_oidc_rp/utils.py]: the claim validator
    [_validate_claims] and its caller [validate_and_return_id_token], with
    the properties of the repository's specification stated and proved
    over the embedding.

    Conventions of the embedding:
    - a decoded ID token is a Python [dict] with string keys, modelled as
      [gmap string pyval]; the validator mutates it in place, so every
      computation threads the dictionary and returns its final contents,
      also when an exception is raised;
    - Python exceptions are values of [exn]; a computation ends in
      [Return v] or [Raise e];
    - Python integers are unbounded, hence [Z]; JSON numbers with a
      fraction or an exponent (Python [float]) are outside the model;
    - the wall clock ([dt.datetime.utcnow()]), the settings object and the
      libraries [urllib.parse] and [jwkest] are parameters;
    - calls to [logger.debug] are not part of the model, and neither are
      [get_logger] and [build_absolute_uri], on which no property below
      depends. *)

From Stdlib Require Import ZArith Ascii String List.
From stdpp Require Import base option gmap strings list.

#[local] Set Warnings "-register-all".
#[local] Open Scope string_scope.
#[local] Open Scope Z_scope.
#[local] Open Scope list_scope.

(** ** Python values, exceptions and outcomes *)

Module Py.

(** The values [json.loads] produces (without [float]). *)
Inductive pyval : Type :=
| PyNone
| PyBool (b : bool)
| PyInt (z : Z)
| PyStr (s : string)
| PyList (l : list pyval)
| PyDict (m : gmap string pyval).

(** The exception classes of [jwkest] that derive from [JWKESTException]. *)
Inductive jwkest_kind : Type :=
| BadSyntax
| BadSignature
| UnknownAlgorithm
| NoSuitableSigningKeys
| JwkestOther (name : string).

Inductive exn : Type :=
| SuspiciousOperation (msg : string)
| KeyError (key : string)
| TypeError
| AttributeError
| ValueError
| JWKESTException (kind : jwkest_kind)
| OtherException (name : string).

Inductive outcome (A : Type) : Type :=
| Return (a : A)
| Raise (e : exn).
#[global] Arguments Return {A} a.
#[global] Arguments Raise {A} e.

#[global] Instance outcome_ret : MRet outcome := fun A a => Return a.
#[global] Instance outcome_bind : MBind outcome := fun A B f o =>
  match o with
  | Return a => f a
  | Raise e => Raise e
  end.

Definition is_raise {A} (o : outcome A) : bool :=
  match o with Raise _ => true | Return _ => false end.

(** [isinstance(v, str)] *)
Definition isinstance_str (v : pyval) : bool :=
  match v with PyStr _ => true | _ => false end.

(** Truth value of an object, [bool(v)]. *)
Definition truthy (v : pyval) : bool :=
  match v with
  | PyNone => false
  | PyBool b => b
  | PyInt z => negb (z =? 0)
  | PyStr s => negb (String.eqb s "")
  | PyList l => match l with [] => false | _ => true end
  | PyDict m => negb (bool_decide (m = ∅))
  end.

(** [v == s] for a [str] [s]: only an equal [str] compares equal. *)
Definition eq_str (v : pyval) (s : string) : bool :=
  match v with PyStr t => String.eqb t s | _ => false end.

(** [v == o] for [o] a [str] or [None]. *)
Definition eq_optstr (v : pyval) (o : option string) : bool :=
  match v, o with
  | PyNone, None => true
  | PyStr t, Some s => String.eqb t s
  | _, _ => false
  end.

(** [t in s] on two [str]: substring test. *)
Fixpoint is_substring (t s : string) : bool :=
  String.prefix t s ||
  match s with
  | EmptyString => false
  | String _ s' => is_substring t s'
  end.

(** [s in v] for a [str] [s]: membership in a list, key of a dict,
    substring of a str; the other values are not iterable. *)
Definition contains_str (v : pyval) (s : string) : outcome bool :=
  match v with
  | PyList l => Return (existsb (fun x => eq_str x s) l)
  | PyDict m => Return (bool_decide (is_Some (m !! s)))
  | PyStr t => Return (is_substring s t)
  | PyNone | PyBool _ | PyInt _ => Raise TypeError
  end.

(** [len(v)] *)
Definition len (v : pyval) : outcome Z :=
  match v with
  | PyList l => Return (Z.of_nat (List.length l))
  | PyDict m => Return (Z.of_nat (size m))
  | PyStr t => Return (Z.of_nat (String.length t))
  | PyNone | PyBool _ | PyInt _ => Raise TypeError
  end.

(** The integer a value stands for in arithmetic and ordering against an
    [int]: [bool] is a subclass of [int]. *)
Definition as_int (v : pyval) : option Z :=
  match v with
  | PyInt z => Some z
  | PyBool b => Some (if b then 1 else 0)
  | _ => None
  end.

(** [n > v] and [n < v] for an [int] [n] *)
Definition int_gt (n : Z) (v : pyval) : outcome bool :=
  match as_int v with
  | Some z => Return (z <? n)
  | None => Raise TypeError
  end.

Definition int_lt (n : Z) (v : pyval) : outcome bool :=
  match as_int v with
  | Some z => Return (n <? z)
  | None => Raise TypeError
  end.

(** [v + n] for an [int] [n] *)
Definition add_int (v : pyval) (n : Z) : outcome Z :=
  match as_int v with
  | Some z => Return (z + n)
  | None => Raise TypeError
  end.

End Py.
Export Py.

(** ** Computations over the token dictionary *)

Module Dict.

Abbreviation claims := (gmap string pyval).

(** A statement sequence acting on the dictionary [id_token]: the final
    dictionary is returned with the outcome, since a mutation made before
    an exception stays visible to the caller. *)
Definition M (A : Type) : Type := claims → claims * outcome A.

#[global] Instance M_ret : MRet M := fun A a d => (d, Return a).
#[global] Instance M_bind : MBind M := fun A B f c d =>
  match c d with
  | (d', Return a) => f a d'
  | (d', Raise e) => (d', Raise e)
  end.

Definition raise {A} (e : exn) : M A := fun d => (d, Raise e).

Definition lift {A} (o : outcome A) : M A := fun d => (d, o).

(** [id_token[k]] *)
Definition getitem (k : string) : M pyval := fun d =>
  match d !! k with
  | Some v => (d, Return v)
  | None => (d, Raise (KeyError k))
  end.

(** [id_token[k] = v] *)
Definition setitem (k : string) (v : pyval) : M unit := fun d =>
  (<[k := v]> d, Return tt).

(** [k in id_token] *)
Definition haskey (k : string) : M bool := fun d =>
  (d, Return (bool_decide (is_Some (d !! k)))).

(** [id_token.get(k, None)] *)
Definition get_or_none (k : string) : M pyval := fun d =>
  (d, Return (default PyNone (d !! k))).

(** [if b: body] *)
Definition when (b : bool) (body : M unit) : M unit :=
  if b then body else mret tt.

End Dict.
Export Dict.

(** ** Settings and the libraries the module calls *)

(** The attributes of [oidc_rp_settings] (module [conf]) that
    [utils.py] reads. *)
Record settings : Type := {
  CLIENT_ID : string;
  CLIENT_SECRET : string;
  PROVIDER_SIGNATURE_ALG : string;
  PROVIDER_SIGNATURE_KEY : string;
  PROVIDER_ENDPOINT : string;
  PROVIDER_JWKS_ENDPOINT : string;
  ID_TOKEN_MAX_AGE : Z;
  USE_NONCE : bool
}.

(** [urllib.parse.urlparse] on a [str]: the [scheme] and [netloc]
    attributes of the result, or [None] when it raises, which it does
    with [ValueError] only. *)
Class UrlLib : Type := {
  urlparse_str : string → option (string * string)
}.

Definition urlparse_result `{UrlLib} (s : string) : outcome (string * string) :=
  match urlparse_str s with
  | Some p => Return p
  | None => Raise ValueError
  end.

(** The [netloc] attribute is a [str] for a [str] argument and [bytes]
    otherwise. *)
Inductive netloc_val : Type :=
| NetlocStr (s : string)
| NetlocBytes (s : string).

(** [a != b] on two [netloc] attributes: a [str] never equals [bytes]. *)
Definition netloc_ne (a b : netloc_val) : bool :=
  match a, b with
  | NetlocStr s, NetlocStr t => negb (String.eqb s t)
  | NetlocBytes s, NetlocBytes t => negb (String.eqb s t)
  | _, _ => true
  end.

(** [urlparse(v).netloc]. [urlparse] starts with [_coerce_args]: a [str]
    is parsed as it is; any other argument is replaced by the empty
    string when it is false and is sent [decode] otherwise, which the
    values of [pyval] do not have; the result is then encoded to
    [bytes]. *)
Definition urlparse_netloc `{UrlLib} (v : pyval) : outcome netloc_val :=
  match v with
  | PyStr s => p ← urlparse_result s; mret (NetlocStr p.2)
  | _ =>
      if truthy v then Raise AttributeError
      else p ← urlparse_result ""; mret (NetlocBytes p.2)
  end.

(** A verification key held by a [jwkest.jwk.KEYS] container: a key
    loaded from the provider, of a type [K] the library owns and of
    whatever key type the provider published, or the symmetric
    ([kty = 'oct']) key that line 66 adds from a byte string. *)
Inductive jwk (K : Type) : Type :=
| ProviderKey (k : K)
| OctKey (key : string).
#[global] Arguments ProviderKey {K} k.
#[global] Arguments OctKey {K} key.

(** [KEYS.load_from_url] (one HTTP request) and [JWS.verify_compact],
    whose result for an ID token is the JSON object of its payload. *)
Class JwkestLib (K : Type) : Type := {
  load_from_url : string → outcome (list K);
  verify_compact : string → list (jwk K) → outcome claims
}.

(** [force_bytes] and [smart_bytes] on a [str]: its UTF-8 encoding. A
    [string] here is already a byte sequence. *)
Definition force_bytes (s : string) : string := s.
Definition smart_bytes (s : string) : string := s.

(** ** The module [jms_oidc_rp.utils] *)

Module Utils.

(** [a and b], where [b] is evaluated only when [a] is true. *)
Definition and_then (a : bool) (b : M bool) : M bool :=
  if a then b else mret false.

Section functions.
Context `{UrlLib} {K : Type} `{JwkestLib K} (conf : settings).

(** [_validate_claims(id_token, nonce, validate_nonce)], lines 71-116.
    [utcnow] is the value [timegm(dt.datetime.utcnow().utctimetuple())]
    takes at line 96. *)
Definition _validate_claims (utcnow : Z) (nonce : option string)
    (validate_nonce : bool) : M unit :=
  iss ← getitem "iss";
  iss_netloc ← lift (urlparse_netloc iss);
  provider_netloc ← lift (urlparse_netloc (PyStr (PROVIDER_ENDPOINT conf)));
  when (netloc_ne iss_netloc provider_netloc)
    (raise (SuspiciousOperation "Invalid issuer"));;

  aud ← getitem "aud";
  when (isinstance_str aud)
    (aud ← getitem "aud"; setitem "aud" (PyList [aud]));;

  aud ← getitem "aud";
  member ← lift (contains_str aud (CLIENT_ID conf));
  when (negb member)
    (raise (SuspiciousOperation "Invalid audience"));;

  aud ← getitem "aud";
  n ← lift (len aud);
  no_azp ← and_then (1 <? n) (has ← haskey "azp"; mret (negb has));
  when no_azp
    (raise (SuspiciousOperation "Incorrect id_token: azp"));;

  has_azp ← haskey "azp";
  other_azp ← and_then has_azp
    (azp ← getitem "azp"; mret (negb (eq_str azp (CLIENT_ID conf))));
  when other_azp
    (raise (SuspiciousOperation "Incorrect id_token: azp"));;

  let utc_timestamp := utcnow in
  exp ← getitem "exp";
  expired ← lift (int_gt utc_timestamp exp);
  when expired
    (raise (SuspiciousOperation "Signature has expired"));;

  has_nbf ← haskey "nbf";
  early ← and_then has_nbf
    (nbf ← getitem "nbf"; lift (int_lt utc_timestamp nbf));
  when early
    (raise (SuspiciousOperation "Incorrect id_token: nbf"));;

  iat ← getitem "iat";
  latest ← lift (add_int iat (ID_TOKEN_MAX_AGE conf));
  when (latest <? utc_timestamp)
    (raise (SuspiciousOperation "Incorrect id_token: iat"));;

  id_token_nonce ← get_or_none "nonce";
  when (validate_nonce && USE_NONCE conf
        && negb (eq_optstr id_token_nonce nonce))
    (raise (SuspiciousOperation "Incorrect id_token: nonce")).

(** The value of [shared_key], lines 34-36. *)
Definition shared_key : string :=
  if String.eqb (PROVIDER_SIGNATURE_ALG conf) "HS256"
  then CLIENT_SECRET conf
  else PROVIDER_SIGNATURE_KEY conf.

(** [_get_jwks_keys(shared_key)], lines 53-68: the keys of the provider's
    JWKS endpoint, then the shared key as an [oct] key. *)
Definition _get_jwks_keys (shared_key : string) : outcome (list (jwk K)) :=
  loaded ← load_from_url (PROVIDER_JWKS_ENDPOINT conf);
  mret ((ProviderKey <$> loaded) ++ [OctKey (smart_bytes shared_key)]).

(** [validate_and_return_id_token(jws, nonce, validate_nonce)], lines
    30-50. The result is [None] for the bare [return] of the handler and
    [Some id_token] for [return id_token]. The argument
    [_get_jwks_keys(shared_key)] is evaluated inside the [try], so a
    [JWKESTException] it raises is caught as well. *)
Definition validate_and_return_id_token (utcnow : Z) (jws : string)
    (nonce : option string) (validate_nonce : bool)
    : outcome (option claims) :=
  let shared_key := shared_key in
  match keys ← _get_jwks_keys shared_key;
        verify_compact (force_bytes jws) keys with
  | Raise (JWKESTException _) => Return None
  | Raise e => Raise e
  | Return id_token =>
      match _validate_claims utcnow nonce validate_nonce id_token with
      | (id_token', Return _) => Return (Some id_token')
      | (_, Raise e) => Raise e
      end
  end.

End functions.
End Utils.
Export Utils.

(** ** The rules of the validator, one by one

    Each definition is the statement group of [_validate_claims] that the
    specification numbers as a rule, with the lines it stands for. *)

Module Rules.
Section rules.
Context `{UrlLib} (conf : settings).
Context (utc_timestamp : Z) (nonce : option string) (validate_nonce : bool).

(** lines 76-80 *)
Definition rule_issuer : M unit :=
  iss ← getitem "iss";
  iss_netloc ← lift (urlparse_netloc iss);
  provider_netloc ← lift (urlparse_netloc (PyStr (PROVIDER_ENDPOINT conf)));
  when (netloc_ne iss_netloc provider_netloc)
    (raise (SuspiciousOperation "Invalid issuer")).

(** lines 82-83 *)
Definition rule_aud_normalize : M unit :=
  aud ← getitem "aud";
  when (isinstance_str aud)
    (aud ← getitem "aud"; setitem "aud" (PyList [aud])).

(** lines 85-87 *)
Definition rule_aud_member : M unit :=
  aud ← getitem "aud";
  member ← lift (contains_str aud (CLIENT_ID conf));
  when (negb member)
    (raise (SuspiciousOperation "Invalid audience")).

(** lines 89-91 *)
Definition rule_azp_present : M unit :=
  aud ← getitem "aud";
  n ← lift (len aud);
  no_azp ← and_then (1 <? n) (has ← haskey "azp"; mret (negb has));
  when no_azp
    (raise (SuspiciousOperation "Incorrect id_token: azp")).

(** lines 93-94 *)
Definition rule_azp_match : M unit :=
  has_azp ← haskey "azp";
  other_azp ← and_then has_azp
    (azp ← getitem "azp"; mret (negb (eq_str azp (CLIENT_ID conf))));
  when other_azp
    (raise (SuspiciousOperation "Incorrect id_token: azp")).

(** lines 97-99 *)
Definition rule_expiry : M unit :=
  exp ← getitem "exp";
  expired ← lift (int_gt utc_timestamp exp);
  when expired
    (raise (SuspiciousOperation "Signature has expired")).

(** lines 101-103 *)
Definition rule_not_before : M unit :=
  has_nbf ← haskey "nbf";
  early ← and_then has_nbf
    (nbf ← getitem "nbf"; lift (int_lt utc_timestamp nbf));
  when early
    (raise (SuspiciousOperation "Incorrect id_token: nbf")).

(** lines 106-108 *)
Definition rule_issued_at : M unit :=
  iat ← getitem "iat";
  latest ← lift (add_int iat (ID_TOKEN_MAX_AGE conf));
  when (latest <? utc_timestamp)
    (raise (SuspiciousOperation "Incorrect id_token: iat")).

(** lines 111-114 *)
Definition rule_nonce : M unit :=
  id_token_nonce ← get_or_none "nonce";
  when (validate_nonce && USE_NONCE conf
        && negb (eq_optstr id_token_nonce nonce))
    (raise (SuspiciousOperation "Incorrect id_token: nonce")).

(** The nine rules by name, in the order of the specification. *)
Inductive check : Type :=
| Issuer | AudNormalize | AudMember | AzpPresent | AzpMatch
| Expiry | NotBefore | IssuedAt | Nonce.

Definition check_order : list check :=
  [Issuer; AudNormalize; AudMember; AzpPresent; AzpMatch;
   Expiry; NotBefore; IssuedAt; Nonce].

Definition run_check (c : check) : M unit :=
  match c with
  | Issuer => rule_issuer
  | AudNormalize => rule_aud_normalize
  | AudMember => rule_aud_member
  | AzpPresent => rule_azp_present
  | AzpMatch => rule_azp_match
  | Expiry => rule_expiry
  | NotBefore => rule_not_before
  | IssuedAt => rule_issued_at
  | Nonce => rule_nonce
  end.

(** An ordered sequence of checks that stops at the first failure and
    returns it: a check runs on the dictionary its predecessors left. *)
Fixpoint run_checks (cs : list check) : M unit :=
  match cs with
  | [] => mret tt
  | c :: cs' => fun d =>
      match run_check c d with
      | (d', Return _) => run_checks cs' d'
      | (d', Raise e) => (d', Raise e)
      end
  end.

End rules.
End Rules.
Export Rules.

(** ** A model of [urllib.parse] for plain URLs

    [urlsplit] of CPython 3.11 on a [str], as far as the [scheme] and the
    [netloc] go. A [netloc] with a bracket or a non-ASCII character makes
    the library run further validation ([_check_bracketed_netloc], the
    NFKC test of [_checknetloc]) that is not modelled: there the model
    answers [None], the [ValueError] the library raises when that
    validation fails, also for the well-formed ones that the library
    accepts. The model is the library on a [netloc] without bracket and
    without non-ASCII character, and the concrete scenarios use no
    other; the general theorems hold for every [UrlLib]. *)

Module CPython.

Definition code (c : ascii) : nat := nat_of_ascii c.

Definition between (lo hi : nat) (c : ascii) : bool :=
  (lo <=? code c)%nat && (code c <=? hi)%nat.

Definition is_upper : ascii → bool := between 65 90.
Definition is_alpha (c : ascii) : bool := is_upper c || between 97 122 c.
Definition is_digit : ascii → bool := between 48 57.

(** [c in chars] *)
Fixpoint char_in (c : ascii) (chars : string) : bool :=
  match chars with
  | EmptyString => false
  | String x r => Ascii.eqb c x || char_in c r
  end.

(** [c in scheme_chars] *)
Definition scheme_char (c : ascii) : bool :=
  is_alpha c || is_digit c || char_in c "+-.".

Definition lower_char (c : ascii) : ascii :=
  if is_upper c then ascii_of_nat (code c + 32) else c.

Fixpoint str_map (f : ascii → ascii) (s : string) : string :=
  match s with
  | EmptyString => EmptyString
  | String c r => String (f c) (str_map f r)
  end.

Fixpoint str_all (p : ascii → bool) (s : string) : bool :=
  match s with
  | EmptyString => true
  | String c r => p c && str_all p r
  end.

Fixpoint str_filter (p : ascii → bool) (s : string) : string :=
  match s with
  | EmptyString => EmptyString
  | String c r => if p c then String c (str_filter p r) else str_filter p r
  end.

(** [s[:n]] and [s[n:]] *)
Fixpoint take (n : nat) (s : string) : string :=
  match n, s with
  | S n', String c r => String c (take n' r)
  | _, _ => EmptyString
  end.

Fixpoint drop (n : nat) (s : string) : string :=
  match n, s with
  | S n', String _ r => drop n' r
  | _, _ => s
  end.

(** [s.find(c)], [None] for [-1] *)
Fixpoint find (c : ascii) (s : string) : option nat :=
  match s with
  | EmptyString => None
  | String x r => if Ascii.eqb x c then Some O else S <$> find c r
  end.

(** [url.lstrip(_WHATWG_C0_CONTROL_OR_SPACE)]: the characters 0 to 32 *)
Fixpoint lstrip_c0 (s : string) : string :=
  match s with
  | String c r => if (code c <=? 32)%nat then lstrip_c0 r else s
  | EmptyString => EmptyString
  end.

(** the removal of [_UNSAFE_URL_BYTES_TO_REMOVE]: tab, CR, LF *)
Definition remove_unsafe (s : string) : string :=
  str_filter (fun c => negb (List.existsb (Nat.eqb (code c)) [9; 13; 10]%nat)) s.

(** the first component of [_splitnetloc(url, 0)]: up to the first of
    ['/'], ['?'], ['#'] *)
Fixpoint until_delim (s : string) : string :=
  match s with
  | EmptyString => EmptyString
  | String c r => if char_in c "/?#" then EmptyString else String c (until_delim r)
  end.

(** the [for ... else] of [urlsplit] that splits the scheme off *)
Definition split_scheme (url : string) : string * string :=
  match find ":" url, url with
  | Some (S i), String c0 _ =>
      if is_alpha c0 && str_all scheme_char (take (S i) url)
      then (str_map lower_char (take (S i) url), drop (S (S i)) url)
      else (EmptyString, url)
  | _, _ => (EmptyString, url)
  end.

Definition plain (netloc : string) : bool :=
  str_all (fun c => (code c <? 128)%nat && negb (char_in c "[]")) netloc.

Definition urlsplit (url : string) : option (string * string) :=
  let url := remove_unsafe (lstrip_c0 url) in
  let '(scheme, url) := split_scheme url in
  if String.prefix "//" url then
    let netloc := until_delim (drop 2 url) in
    if plain netloc then Some (scheme, netloc) else None
  else Some (scheme, EmptyString).

End CPython.

Definition cpython_urllib : UrlLib := {| urlparse_str := CPython.urlsplit |}.

(** ** Names for the rules, their errors and their reads *)

(** The message of the [SuspiciousOperation] a rule raises (lines 80, 87,
    91, 94, 99, 103, 108 and 114); normalisation raises none. *)
Definition failure_message (c : check) : option string :=
  match c with
  | Issuer => Some "Invalid issuer"
  | AudNormalize => None
  | AudMember => Some "Invalid audience"
  | AzpPresent => Some "Incorrect id_token: azp"
  | AzpMatch => Some "Incorrect id_token: azp"
  | Expiry => Some "Signature has expired"
  | NotBefore => Some "Incorrect id_token: nbf"
  | IssuedAt => Some "Incorrect id_token: iat"
  | Nonce => Some "Incorrect id_token: nonce"
  end.

#[global] Instance check_eq_dec : EqDecision check.
Proof. solve_decision. Defined.

(** The checks that run before [c]. *)
Fixpoint before (c : check) (cs : list check) : list check :=
  match cs with
  | [] => []
  | x :: cs' => if decide (x = c) then [] else x :: before c cs'
  end.

Definition checks_before (c : check) : list check := before c check_order.

(** The Python value of the [nonce] argument. *)
Definition nonce_value (nonce : option string) : pyval :=
  match nonce with
  | Some s => PyStr s
  | None => PyNone
  end.

(** The rule that reads a required claim first (lines 76, 82, 97 and
    106). *)
Definition first_read (k : string) : option check :=
  if decide (k = "iss") then Some Issuer
  else if decide (k = "aud") then Some AudNormalize
  else if decide (k = "exp") then Some Expiry
  else if decide (k = "iat") then Some IssuedAt
  else None.

(** The authority of a URL in the words of the specification: scheme,
    host and port, the latter two as [urlparse] gives them in [netloc]. *)
Definition spec_authority `{UrlLib} (url : string) : option (string * string) :=
  urlparse_str url.

(** ** Concrete scenarios *)

Module Scenario.

Definition now : Z := 1700000000.

Definition conf : settings := {|
  CLIENT_ID := "clientA";
  CLIENT_SECRET := "s3cret";
  PROVIDER_SIGNATURE_ALG := "HS256";
  PROVIDER_SIGNATURE_KEY := "";
  PROVIDER_ENDPOINT := "https://op.example.com/";
  PROVIDER_JWKS_ENDPOINT := "https://op.example.com/jwks";
  ID_TOKEN_MAX_AGE := 600;
  USE_NONCE := true
|}.

(** A token that passes every rule for the expected nonce ["abc123"]. *)
Definition good : claims :=
  <["iss" := PyStr "https://op.example.com"]>
  (<["aud" := PyList [PyStr "clientA"]]>
  (<["exp" := PyInt (now + 3600)]>
  (<["iat" := PyInt (now - 10)]>
  (<["nonce" := PyStr "abc123"]> ∅)))).

(** [validate] runs the validator with CPython's [urlparse]. *)
Definition validate (nonce : option string) (vn : bool) (d : claims)
    : claims * outcome unit :=
  _validate_claims (H := cpython_urllib) conf now nonce vn d.

Definition check (c : check) (nonce : option string) (vn : bool) (d : claims)
    : claims * outcome unit :=
  run_check (H := cpython_urllib) conf now nonce vn c d.

Definition checks (cs : list Rules.check) (nonce : option string) (vn : bool)
    (d : claims) : claims * outcome unit :=
  run_checks (H := cpython_urllib) conf now nonce vn cs d.

(** A [jwkest] that knows one token: it accepts [signed_good], whose
    payload is [good], when the shared [oct] key is among the keys, and
    rejects every other input with [BadSignature]. The provider
    publishes no key. *)
Definition signed_good : string := "eyJhbGciOiJIUzI1NiJ9.Z29vZA.c2ln".

Definition has_oct_key (key : string) (keys : list (jwk unit)) : bool :=
  existsb (λ k, match k with
                | OctKey b => String.eqb b key
                | ProviderKey _ => false
                end) keys.

Definition toy_jwkest : JwkestLib unit := {|
  load_from_url _ := Return [];
  verify_compact jws keys :=
    if String.eqb jws signed_good && has_oct_key "s3cret" keys
    then Return good
    else Raise (JWKESTException BadSignature)
|}.

Definition validate_token (jws : string) (nonce : option string) (vn : bool)
    : outcome (option claims) :=
  validate_and_return_id_token (H := cpython_urllib) (H0 := toy_jwkest)
    conf now jws nonce vn.

(** The tokens of the scenarios, as variations of [good]. *)

(** A bare-string audience of another client. *)
Definition other_aud : claims := <["aud" := PyStr "clientB"]> good.

(** [exp] one second in the past. *)
Definition expired : claims := <["exp" := PyInt (now - 1)]> good.

(** The issuer of another host. *)
Definition foreign_iss : claims :=
  <["iss" := PyStr "https://evil.example.org/op"]> good.

(** An issuer that differs from the provider endpoint in its scheme
    only. *)
Definition http_iss : claims :=
  <["iss" := PyStr "http://op.example.com"]> good.

(** [aud] as the bare string of the configured client ID. *)
Definition bare_aud : claims := <["aud" := PyStr "clientA"]> good.

(** Two audiences, without and with [azp]. *)
Definition two_aud : claims :=
  <["aud" := PyList [PyStr "clientA"; PyStr "clientB"]]> good.

Definition two_aud_azp : claims := <["azp" := PyStr "clientA"]> two_aud.

(** A token without [nonce] claim. *)
Definition no_nonce : claims := delete "nonce" good.

(** A token without [exp]. *)
Definition no_exp : claims := delete "exp" good.

(** A token of a foreign issuer that has no [aud], [exp] or [iat]. *)
Definition only_foreign_iss : claims :=
  <["iss" := PyStr "https://evil.example.org/op"]> ∅.

(** One audience and the [azp] of another client. *)
Definition foreign_azp : claims := <["azp" := PyStr "clientB"]> good.

(** The known token with its last character altered. *)
Definition tampered : string := "eyJhbGciOiJIUzI1NiJ9.Z29vZA.c2lh".

End Scenario.

(** ** What the validator accepts, reads and raises *)

(** The dictionary after lines 82-83: a bare-string [aud] has become the
    one-element list holding it. *)
Definition normalized (d : claims) : claims :=
  match d !! "aud" with
  | Some (PyStr s) => <["aud" := PyList [PyStr s]]> d
  | _ => d
  end.

(** The rules that run on the normalised dictionary. *)
Definition after_normalize : list check :=
  [AudMember; AzpPresent; AzpMatch; Expiry; NotBefore; IssuedAt; Nonce].

Module Accept.
Section conditions.
Context `{UrlLib} (conf : settings).
Context (now : Z) (nonce : option string) (vn : bool).

(** lines 76-80 do not raise *)
Definition issuer_ok (d : claims) : Prop :=
  ∃ s p q,
    d !! "iss" = Some (PyStr s)
    ∧ urlparse_str s = Some p
    ∧ urlparse_str (PROVIDER_ENDPOINT conf) = Some q
    ∧ p.2 = q.2.

(** lines 85-91 do not raise *)
Definition audience_ok (d : claims) : Prop :=
  ∃ v n,
    d !! "aud" = Some v
    ∧ contains_str v (CLIENT_ID conf) = Return true
    ∧ len v = Return n
    ∧ (1 < n → is_Some (d !! "azp")).

(** lines 93-94 do not raise *)
Definition azp_ok (d : claims) : Prop :=
  ∀ a, d !! "azp" = Some a → a = PyStr (CLIENT_ID conf).

(** lines 97-99, 101-103 and 106-108 do not raise *)
Definition not_expired (d : claims) : Prop :=
  ∃ v e, d !! "exp" = Some v ∧ as_int v = Some e ∧ now ≤ e.

Definition already_valid (d : claims) : Prop :=
  ∀ b, d !! "nbf" = Some b → ∃ n, as_int b = Some n ∧ n ≤ now.

Definition fresh (d : claims) : Prop :=
  ∃ v i,
    d !! "iat" = Some v ∧ as_int v = Some i
    ∧ now ≤ i + ID_TOKEN_MAX_AGE conf.

(** lines 111-114 do not raise *)
Definition nonce_ok (d : claims) : Prop :=
  vn && USE_NONCE conf = true →
  default PyNone (d !! "nonce") = nonce_value nonce.

Definition accepted (d : claims) : Prop :=
  issuer_ok d ∧ audience_ok d ∧ azp_ok d
  ∧ not_expired d ∧ already_valid d ∧ fresh d ∧ nonce_ok d.

End conditions.
End Accept.
Export Accept.

(** The claims a rule looks up. *)
Definition reads (c : check) : list string :=
  match c with
  | Issuer => ["iss"]
  | AudNormalize => ["aud"]
  | AudMember => ["aud"]
  | AzpPresent => ["aud"; "azp"]
  | AzpMatch => ["azp"]
  | Expiry => ["exp"]
  | NotBefore => ["nbf"]
  | IssuedAt => ["iat"]
  | Nonce => ["nonce"]
  end.

Definition known_claims : list string :=
  ["iss"; "aud"; "azp"; "exp"; "nbf"; "iat"; "nonce"].

(** The exceptions that leave [_validate_claims]. *)
Definition validator_error (e : exn) : Prop :=
  match e with
  | SuspiciousOperation m =>
      m ∈ ["Invalid issuer"; "Invalid audience"; "Incorrect id_token: azp";
           "Signature has expired"; "Incorrect id_token: nbf";
           "Incorrect id_token: iat"; "Incorrect id_token: nonce"]
  | KeyError k => k ∈ ["iss"; "aud"; "exp"; "iat"]
  | TypeError | AttributeError | ValueError => True
  | JWKESTException _ | OtherException _ => False
  end.

(** The time claims of a dictionary are integers where they are present
    ([bool] included, as in Python). The rules on [exp], [nbf] and [iat]
    are stated for such dictionaries; a [float] value is compared by the
    code as a number and is outside the model. *)
Definition integer_times (d : claims) : bool :=
  forallb (λ k, match d !! k with
                | Some v => bool_decide (is_Some (as_int v))
                | None => true
                end) ["exp"; "nbf"; "iat"].

(** More tokens, as variations of [Scenario.good]. *)

Module Cases.
Import Scenario.

(** [nbf] one second ahead of the clock. *)
Definition early : claims := <["nbf" := PyInt (now + 1)]> good.

(** [iat] one second older than [ID_TOKEN_MAX_AGE] allows. *)
Definition stale : claims := <["iat" := PyInt (now - 601)]> good.

(** An empty audience list. *)
Definition empty_aud : claims := <["aud" := PyList []]> good.

(** A claim the validator does not read. *)
Definition with_sub : claims := <["sub" := PyStr "alice"]> good.

(** The validator at another time. *)
Definition validate_at (t : Z) (nonce : option string) (vn : bool)
    (d : claims) : claims * outcome unit :=
  _validate_claims (H := cpython_urllib) conf t nonce vn d.

End Cases.

(** ** Sequencing laws and the rule chain *)

(** The laws of sequencing, pointwise in the dictionary. *)
Lemma bind_assoc {A B C} (m : M A) (f : A → M B) (g : B → M C) (d : claims) :
  ((m ≫= f) ≫= g) d = (m ≫= (λ x, f x ≫= g)) d.
Proof. unfold mbind, M_bind. by destruct (m d) as [d' [a|e]]. Qed.

Lemma bind_ext {A B} (m : M A) (f g : A → M B) (d : claims) :
  (∀ x d', f x d' = g x d') → (m ≫= f) d = (m ≫= g) d.
Proof.
  intros Hfg. unfold mbind, M_bind. destruct (m d) as [d' [a|e]]; auto.
Qed.

Lemma bind_ret_r (m : M unit) (d : claims) : (m ≫= λ _, mret tt) d = m d.
Proof. unfold mbind, M_bind. by destruct (m d) as [d' [[]|e]]. Qed.

Ltac unfold_rules :=
  unfold rule_issuer, rule_aud_normalize, rule_aud_member, rule_azp_present,
    rule_azp_match, rule_expiry, rule_not_before, rule_issued_at, rule_nonce.

Section chain.
Context `{UrlLib} (conf : settings).
Context (now : Z) (nonce : option string) (vn : bool).

Lemma run_checks_cons (c : check) (cs : list check) (d : claims) :
  run_checks conf now nonce vn (c :: cs) d
  = (run_check conf now nonce vn c ≫= λ _, run_checks conf now nonce vn cs) d.
Proof. reflexivity. Qed.

(** The body of [_validate_claims] is its nine rules in sequence. *)
Lemma validate_claims_run_checks (d : claims) :
  _validate_claims conf now nonce vn d
  = run_checks conf now nonce vn check_order d.
Proof.
  unfold _validate_claims, check_order. symmetry. revert d.
  repeat first
    [ progress cbn zeta
    | intros d; cbn [run_checks]; rewrite bind_ret_r; reflexivity
    | intros d; rewrite run_checks_cons; cbn [run_check]; unfold_rules; revert d
    | intros d; rewrite bind_assoc; revert d
    | intros d; apply bind_ext; clear d; intros ? ].
Qed.

End chain.

(** ** The model of [urlparse] on sample URLs *)

Example urlsplit_https :
  CPython.urlsplit "https://op.example.com/" = Some ("https", "op.example.com").
Proof. reflexivity. Qed.

Example urlsplit_port_path :
  CPython.urlsplit "HTTP://u@Op.example.com:8443/a/b?x#y"
  = Some ("http", "u@Op.example.com:8443").
Proof. reflexivity. Qed.

Example urlsplit_no_authority :
  CPython.urlsplit "op.example.com/path" = Some ("", "").
Proof. reflexivity. Qed.

(** ** General facts on the rule sequence *)

Lemma eq_optstr_true (v : pyval) (nonce : option string) :
  eq_optstr v nonce = true ↔ v = nonce_value nonce.
Proof.
  destruct v, nonce; simpl; try (split; [done|congruence]).
  rewrite String.eqb_eq. split; congruence.
Qed.

Ltac unfold_monad :=
  unfold when, and_then, lift, raise, getitem, haskey, get_or_none, setitem;
  unfold mbind, mret, M_bind, M_ret.

Ltac unfold_py :=
  unfold urlparse_netloc, urlparse_result, contains_str, len, int_gt, int_lt,
    add_int in *;
  unfold mbind, mret, outcome_bind, outcome_ret in *.

Ltac run_rule := unfold_rules; unfold_monad; unfold_py; cbv beta.

Ltac split_cases := repeat (case_match; simplify_eq/=; try done).

Section sequence.
Context `{UrlLib} (conf : settings).
Context (now : Z) (nonce : option string) (vn : bool).

#[local] Abbreviation run_check := (run_check conf now nonce vn).
#[local] Abbreviation run_checks := (run_checks conf now nonce vn).

Lemma run_checks_app (pre post : list check) (d : claims) :
  run_checks (pre ++ post) d =
  match run_checks pre d with
  | (d', Return _) => run_checks post d'
  | (d', Raise e) => (d', Raise e)
  end.
Proof.
  revert d. induction pre as [|c pre IH]; intros d; simpl; [done|].
  destruct (run_check c d) as [d1 [[]|e]]; [apply IH|done].
Qed.

Lemma run_checks_pass (c : check) (cs : list check) (d d1 : claims) :
  run_check c d = (d1, Return tt) →
  run_checks (c :: cs) d = run_checks cs d1.
Proof. intros Hc. simpl. by rewrite Hc. Qed.

Lemma run_checks_fail (c : check) (cs : list check) (d d1 : claims)
    (e : exn) :
  run_check c d = (d1, Raise e) →
  run_checks (c :: cs) d = (d1, Raise e).
Proof. intros Hc. simpl. by rewrite Hc. Qed.

Lemma run_checks_first_failure (pre post : list check) (c : check)
    (d d1 d2 : claims) (e : exn) :
  run_checks pre d = (d1, Return tt) →
  run_check c d1 = (d2, Raise e) →
  run_checks (pre ++ c :: post) d = (d2, Raise e).
Proof.
  intros Hpre Hc. rewrite run_checks_app, Hpre. simpl. by rewrite Hc.
Qed.

Lemma run_checks_raise_inv (cs : list check) (d d' : claims) (e : exn) :
  run_checks cs d = (d', Raise e) →
  ∃ pre c post d1,
    cs = pre ++ c :: post ∧ run_checks pre d = (d1, Return tt)
    ∧ run_check c d1 = (d', Raise e).
Proof.
  revert d. induction cs as [|c cs IH]; intros d; simpl; [done|].
  destruct (run_check c d) as [d1 [[]|e1]] eqn:Hc.
  - intros (pre & c' & post & d2 & -> & Hpre & Hc')%IH.
    exists (c :: pre), c', post, d2. simpl. by rewrite Hc.
  - intros [= -> ->]. by exists [], c, cs, d.
Qed.

(** Only normalisation writes to the dictionary, and only to [aud]. *)
Lemma run_check_frame (c : check) (d : claims) :
  c ≠ AudNormalize → (run_check c d).1 = d.
Proof.
  intros Hc. destruct c; try done; simpl; run_rule; split_cases.
Qed.

Lemma rule_aud_normalize_effect (d : claims) :
  (run_check AudNormalize d).1 = d
  ∨ ∃ s, d !! "aud" = Some (PyStr s)
         ∧ run_check AudNormalize d = (<["aud" := PyList [PyStr s]]> d, Return tt).
Proof.
  simpl. run_rule.
  destruct (d !! "aud") as [[]|] eqn:Haud; simpl; try (by left).
  right. exists s. by rewrite Haud.
Qed.

Lemma run_check_effect (c : check) (d : claims) :
  (run_check c d).1 = d
  ∨ ∃ s, d !! "aud" = Some (PyStr s)
         ∧ (run_check c d).1 = <["aud" := PyList [PyStr s]]> d.
Proof.
  destruct (decide (c = AudNormalize)) as [->|Hc].
  - destruct (rule_aud_normalize_effect d) as [?|(s & ? & Hs)]; [by left|].
    right. exists s. by rewrite Hs.
  - left. by apply run_check_frame.
Qed.

Lemma run_checks_effect (cs : list check) (d : claims) :
  (run_checks cs d).1 = d
  ∨ ∃ s, d !! "aud" = Some (PyStr s)
         ∧ (run_checks cs d).1 = <["aud" := PyList [PyStr s]]> d.
Proof.
  revert d. induction cs as [|c cs IH]; intros d; simpl; [by left|].
  destruct (run_check c d) as [d1 [[]|e]] eqn:Hc.
  - destruct (run_check_effect c d) as [Hd|(s & Haud & Hd)];
      rewrite Hc in Hd; simpl in Hd; subst d1; [apply IH|].
    right. exists s. split; [done|].
    destruct (IH (<["aud" := PyList [PyStr s]]> d)) as [->|(s' & Hs' & _)];
      [done|].
    by rewrite lookup_insert_eq in Hs'.
  - destruct (run_check_effect c d) as [Hd|(s & Haud & Hd)];
      rewrite Hc in Hd; simpl in *; eauto.
Qed.

Lemma run_checks_lookup (cs : list check) (d : claims) (k : string) :
  k ≠ "aud" → (run_checks cs d).1 !! k = d !! k.
Proof.
  intros Hk. destruct (run_checks_effect cs d) as [->|(s & _ & ->)]; [done|].
  by rewrite lookup_insert_ne.
Qed.

(** A [SuspiciousOperation] carries the message of the rule raising it. *)
Lemma run_check_message (c : check) (d d' : claims) (m : string) :
  run_check c d = (d', Raise (SuspiciousOperation m)) →
  failure_message c = Some m.
Proof.
  destruct c; simpl; run_rule; intros Hrun; split_cases.
Qed.

Lemma run_checks_message (cs : list check) (d d' : claims) (m : string) :
  run_checks cs d = (d', Raise (SuspiciousOperation m)) →
  ∃ c, c ∈ cs ∧ failure_message c = Some m.
Proof.
  intros (pre & c & post & d1 & -> & _ & Hc)%run_checks_raise_inv.
  exists c. split; [set_solver|by eapply run_check_message].
Qed.

(** When the checks [pre] pass, a [SuspiciousOperation] of the whole
    sequence comes from a check after them. *)
Lemma run_checks_message_after (pre post : list check) (d d1 : claims)
    (m : string) :
  run_checks pre d = (d1, Return tt) →
  (run_checks (pre ++ post) d).2 = Raise (SuspiciousOperation m) →
  ∃ c, c ∈ post ∧ failure_message c = Some m.
Proof.
  intros Hpre. rewrite run_checks_app, Hpre.
  destruct (run_checks post d1) as [d2 o] eqn:Hpost. simpl. intros ->.
  by eapply run_checks_message.
Qed.

End sequence.

Example good_token_passes :
  Scenario.validate (Some "abc123") true Scenario.good
  = (Scenario.good, Return tt).
Proof. reflexivity. Qed.

(** ** The claims of the specification *)

Section claims.
Context `{UrlLib} (conf : settings).
Context (now : Z) (nonce : option string) (vn : bool).

#[local] Abbreviation validate := (_validate_claims conf now nonce vn).
#[local] Abbreviation run_check := (run_check conf now nonce vn).
#[local] Abbreviation run_checks := (run_checks conf now nonce vn).

(** C7. The validator evaluates the rules issuer, audience normalisation,
    audience membership, azp presence, azp match, expiry, not-before,
    issued-at and nonce in this order, each on the dictionary its
    predecessors left: when the rules before [c] pass and [c] raises
    [e], the validator raises [e], whatever rules would follow [c]. *)
Theorem validate_claims_ordered_fail_fast
    (d d1 d2 : claims) (pre post : list check) (c : check) (e : exn) :
  check_order = pre ++ c :: post →
  run_checks pre d = (d1, Return tt) →
  run_check c d1 = (d2, Raise e) →
  validate d = (d2, Raise e)
  ∧ (∀ post', run_checks (pre ++ c :: post') d = (d2, Raise e))
  ∧ (∀ d0, validate d0 = run_checks check_order d0).
Proof.
  intros Horder Hpre Hc. split_and!.
  - rewrite validate_claims_run_checks, Horder.
    by eapply run_checks_first_failure.
  - intros post'. by eapply run_checks_first_failure.
  - apply validate_claims_run_checks.
Qed.

(** What the rules before [c] leave of a claim other than [aud]. *)
Lemma prefix_lookup (cs : list check) (d d1 : claims) (o : outcome unit)
    (k : string) :
  run_checks cs d = (d1, o) → k ≠ "aud" → d1 !! k = d !! k.
Proof.
  intros Hrun Hk. rewrite <-(run_checks_lookup conf now nonce vn cs d k Hk).
  by rewrite Hrun.
Qed.

Lemma rule_expiry_run (d : claims) (v : pyval) (e : Z) :
  d !! "exp" = Some v → as_int v = Some e →
  run_check Expiry d
  = (d, if e <? now then Raise (SuspiciousOperation "Signature has expired")
        else Return tt).
Proof.
  intros Hexp He. simpl. run_rule. rewrite Hexp, He. by destruct (e <? now).
Qed.

(** C3. Once the rules before it have passed, the expiry rule passes
    exactly when the current time is at most the [exp] claim, and the
    validator raises 'Signature has expired' exactly when the current
    time is greater; so [exp = now - 1] fails, and [exp = now] and
    [exp = now + 3600] pass the rule. *)
Theorem expiry_passes_iff_now_le_exp (d d1 : claims) (v : pyval) (e : Z) :
  run_checks (checks_before Expiry) d = (d1, Return tt) →
  d !! "exp" = Some v →
  as_int v = Some e →
  (run_check Expiry d1 = (d1, Return tt) ↔ now ≤ e)
  ∧ (validate d = (d1, Raise (SuspiciousOperation "Signature has expired"))
     ↔ e < now)
  ∧ ((validate d).2 = Raise (SuspiciousOperation "Signature has expired")
     ↔ e < now).
Proof.
  intros Hpre Hexp He.
  assert (d1 !! "exp" = Some v) as Hexp1.
  { by rewrite (prefix_lookup _ _ _ _ _ Hpre). }
  pose proof (rule_expiry_run d1 v e Hexp1 He) as Hrule.
  assert (e < now → validate d
    = (d1, Raise (SuspiciousOperation "Signature has expired"))) as Hfail.
  { intros Hlt. rewrite validate_claims_run_checks.
    change check_order
      with (checks_before Expiry ++ Expiry :: [NotBefore; IssuedAt; Nonce]).
    eapply run_checks_first_failure; [done|].
    rewrite Hrule. by rewrite (proj2 (Z.ltb_lt e now) Hlt). }
  assert ((validate d).2 = Raise (SuspiciousOperation "Signature has expired")
    → e < now) as Hinv.
  { intros Hraise. destruct (Z.ltb_spec e now) as [|Hle]; [done|].
    rewrite validate_claims_run_checks in Hraise.
    change check_order
      with (checks_before Expiry ++ Expiry :: [NotBefore; IssuedAt; Nonce])
      in Hraise.
    rewrite run_checks_app, Hpre, (run_checks_pass _ _ _ _ _ _ _ _ Hrule)
      in Hraise.
    destruct (run_checks [NotBefore; IssuedAt; Nonce] d1) as [d2 o] eqn:Hrest.
    simpl in Hraise. subst o.
    apply run_checks_message in Hrest as (c & Hin & Hmsg).
    set_unfold in Hin. destruct Hin as [->|[->|[->|[]]]]; discriminate. }
  split_and!.
  - rewrite Hrule. destruct (Z.ltb_spec e now); split; intros; try done; lia.
  - split; [|done]. intros Hv. apply Hinv. by rewrite Hv.
  - split; [done|]. intros Hlt. by rewrite (Hfail Hlt).
Qed.

Lemma rule_issuer_run (d : claims) (s : string) (p q : string * string) :
  d !! "iss" = Some (PyStr s) →
  urlparse_str s = Some p →
  urlparse_str (PROVIDER_ENDPOINT conf) = Some q →
  run_check Issuer d
  = (d, if String.eqb p.2 q.2 then Return tt
        else Raise (SuspiciousOperation "Invalid issuer")).
Proof.
  intros Hiss Hp Hq. simpl. run_rule. rewrite Hiss, Hp, Hq. simpl.
  by destruct (String.eqb p.2 q.2).
Qed.

(** C2, as the code has it. The issuer rule compares the [netloc]
    components that [urlparse] gives for [iss] and for the provider
    endpoint, and nothing else of the two URLs: the scheme, the path, the
    query and the fragment play no part. When the two differ the
    validator raises 'Invalid issuer' with the dictionary untouched,
    whatever the other claims are; when they agree the rule passes and
    the validator never raises 'Invalid issuer'. *)
Theorem issuer_check_compares_netloc
    (d : claims) (s : string) (p q : string * string) :
  d !! "iss" = Some (PyStr s) →
  urlparse_str s = Some p →
  urlparse_str (PROVIDER_ENDPOINT conf) = Some q →
  (run_check Issuer d = (d, Return tt) ↔ p.2 = q.2)
  ∧ (validate d = (d, Raise (SuspiciousOperation "Invalid issuer"))
     ↔ p.2 ≠ q.2)
  ∧ ((validate d).2 = Raise (SuspiciousOperation "Invalid issuer")
     ↔ p.2 ≠ q.2).
Proof.
  intros Hiss Hp Hq.
  pose proof (rule_issuer_run d s p q Hiss Hp Hq) as Hrule.
  assert (p.2 ≠ q.2 → validate d
    = (d, Raise (SuspiciousOperation "Invalid issuer"))) as Hfail.
  { intros Hne. rewrite validate_claims_run_checks.
    apply (run_checks_first_failure conf now nonce vn [] _ Issuer d d d);
      [done|].
    rewrite Hrule. by rewrite (proj2 (String.eqb_neq _ _) Hne). }
  assert ((validate d).2 = Raise (SuspiciousOperation "Invalid issuer")
    → p.2 ≠ q.2) as Hinv.
  { intros Hraise Heq. rewrite (proj2 (String.eqb_eq _ _) Heq) in Hrule.
    rewrite validate_claims_run_checks in Hraise.
    apply (run_checks_message_after conf now nonce vn [Issuer] _ d d)
      in Hraise as (c & Hin & Hmsg).
    - set_unfold in Hin. by repeat destruct Hin as [->|Hin].
    - by rewrite (run_checks_pass _ _ _ _ _ _ _ _ Hrule). }
  split_and!.
  - rewrite Hrule. destruct (String.eqb_spec p.2 q.2); naive_solver.
  - split; [|done]. intros Hv. apply Hinv. by rewrite Hv.
  - split; [done|]. intros Hne. by rewrite (Hfail Hne).
Qed.

Lemma rule_aud_normalize_str (d : claims) (s : string) :
  d !! "aud" = Some (PyStr s) →
  run_check AudNormalize d = (<["aud" := PyList [PyStr s]]> d, Return tt).
Proof.
  intros Haud. simpl. run_rule. rewrite Haud. simpl. by rewrite Haud.
Qed.

Lemma rule_aud_member_list (d : claims) (l : list pyval) :
  d !! "aud" = Some (PyList l) →
  run_check AudMember d
  = (d, if existsb (λ x, eq_str x (CLIENT_ID conf)) l then Return tt
        else Raise (SuspiciousOperation "Invalid audience")).
Proof.
  intros Haud. simpl. run_rule. rewrite Haud.
  by destruct (existsb _ l).
Qed.

(** C5. A bare-string [aud] is replaced by the one-element list holding
    it before membership is tested. Once the issuer rule has passed, the
    membership rule then passes exactly when the string is the configured
    client ID, and the validator raises 'Invalid audience' exactly when
    it is not. *)
Theorem bare_string_audience (d : claims) (s : string) :
  run_check Issuer d = (d, Return tt) →
  d !! "aud" = Some (PyStr s) →
  run_checks [Issuer; AudNormalize] d
    = (<["aud" := PyList [PyStr s]]> d, Return tt)
  ∧ (run_check AudMember (<["aud" := PyList [PyStr s]]> d)
       = (<["aud" := PyList [PyStr s]]> d, Return tt)
     ↔ s = CLIENT_ID conf)
  ∧ (validate d = (<["aud" := PyList [PyStr s]]> d,
                   Raise (SuspiciousOperation "Invalid audience"))
     ↔ s ≠ CLIENT_ID conf)
  ∧ ((validate d).2 = Raise (SuspiciousOperation "Invalid audience")
     ↔ s ≠ CLIENT_ID conf).
Proof.
  intros Hiss Haud. set (d' := <["aud" := PyList [PyStr s]]> d).
  assert (run_checks [Issuer; AudNormalize] d = (d', Return tt)) as Hpre.
  { rewrite (run_checks_pass _ _ _ _ _ _ _ _ Hiss).
    by rewrite (run_checks_pass _ _ _ _ _ _ _ _ (rule_aud_normalize_str d s Haud)). }
  assert (run_check AudMember d'
    = (d', if String.eqb s (CLIENT_ID conf) then Return tt
           else Raise (SuspiciousOperation "Invalid audience"))) as Hrule.
  { rewrite (rule_aud_member_list d' [PyStr s]); [|apply lookup_insert_eq].
    simpl. by destruct (String.eqb s (CLIENT_ID conf)). }
  assert (s ≠ CLIENT_ID conf → validate d
    = (d', Raise (SuspiciousOperation "Invalid audience"))) as Hfail.
  { intros Hne. rewrite validate_claims_run_checks.
    apply (run_checks_first_failure conf now nonce vn [Issuer; AudNormalize]
      _ AudMember d d' d'); [done|].
    rewrite Hrule. by rewrite (proj2 (String.eqb_neq _ _) Hne). }
  assert ((validate d).2 = Raise (SuspiciousOperation "Invalid audience")
    → s ≠ CLIENT_ID conf) as Hinv.
  { intros Hraise Heq. rewrite (proj2 (String.eqb_eq _ _) Heq) in Hrule.
    rewrite validate_claims_run_checks in Hraise.
    apply (run_checks_message_after conf now nonce vn
      [Issuer; AudNormalize; AudMember] _ d d') in Hraise as (c & Hin & Hmsg).
    - set_unfold in Hin. by repeat destruct Hin as [->|Hin].
    - change [Issuer; AudNormalize; AudMember]
        with ([Issuer; AudNormalize] ++ [AudMember]).
      rewrite run_checks_app, Hpre.
      by rewrite (run_checks_pass _ _ _ _ _ _ _ _ Hrule). }
  split_and!.
  - done.
  - rewrite Hrule. destruct (String.eqb_spec s (CLIENT_ID conf)); naive_solver.
  - split; [|done]. intros Hv. apply Hinv. by rewrite Hv.
  - split; [done|]. intros Hne. by rewrite (Hfail Hne).
Qed.

Lemma rule_azp_present_run (d : claims) (v : pyval) (n : Z) :
  d !! "aud" = Some v → len v = Return n →
  run_check AzpPresent d
  = (d, if (1 <? n) && negb (bool_decide (is_Some (d !! "azp")))
        then Raise (SuspiciousOperation "Incorrect id_token: azp")
        else Return tt).
Proof.
  intros Haud Hlen. simpl. run_rule. rewrite Haud, Hlen.
  destruct (1 <? n); [|done]. simpl.
  by destruct (bool_decide (is_Some (d !! "azp"))).
Qed.

Lemma rule_azp_match_run (d : claims) :
  run_check AzpMatch d
  = (d, match d !! "azp" with
        | Some a =>
            if eq_str a (CLIENT_ID conf) then Return tt
            else Raise (SuspiciousOperation "Incorrect id_token: azp")
        | None => Return tt
        end).
Proof.
  simpl. run_rule. destruct (d !! "azp") as [a|] eqn:Hazp.
  - rewrite bool_decide_true by eauto. simpl. rewrite Hazp. simpl.
    by destruct (eq_str a (CLIENT_ID conf)).
  - rewrite bool_decide_false; [done|]. by intros [? ?].
Qed.

Lemma eq_str_true (v : pyval) (s : string) :
  eq_str v s = true ↔ v = PyStr s.
Proof.
  destruct v; simpl; try (split; [done|congruence]).
  rewrite String.eqb_eq. split; congruence.
Qed.

(** C6. Once issuer and audience have passed, with [n] the number of
    entries of [aud]:
    - [n > 1] and no [azp] claim: 'Incorrect id_token: azp' is raised;
    - an [azp] claim other than the configured client ID, whatever [n]
      is: 'Incorrect id_token: azp' is raised;
    - an [azp] claim equal to the configured client ID: both azp rules
      pass, whatever [n] is;
    - [n ≤ 1] and no [azp] claim: both azp rules pass. *)
Theorem authorized_party_rules (d d1 : claims) (v : pyval) (n : Z) :
  run_checks (checks_before AzpPresent) d = (d1, Return tt) →
  d1 !! "aud" = Some v →
  len v = Return n →
  (1 < n → d !! "azp" = None →
     validate d = (d1, Raise (SuspiciousOperation "Incorrect id_token: azp")))
  ∧ (∀ a, d !! "azp" = Some a → a ≠ PyStr (CLIENT_ID conf) →
     validate d = (d1, Raise (SuspiciousOperation "Incorrect id_token: azp")))
  ∧ (d !! "azp" = Some (PyStr (CLIENT_ID conf)) →
     run_checks [AzpPresent; AzpMatch] d1 = (d1, Return tt))
  ∧ (n ≤ 1 → d !! "azp" = None →
     run_checks [AzpPresent; AzpMatch] d1 = (d1, Return tt)).
Proof.
  intros Hpre Haud Hlen.
  assert (d1 !! "azp" = d !! "azp") as Hazp.
  { by apply (prefix_lookup _ _ _ _ _ Hpre). }
  pose proof (rule_azp_present_run d1 v n Haud Hlen) as Hpresent.
  pose proof (rule_azp_match_run d1) as Hmatch.
  rewrite Hazp in Hpresent, Hmatch.
  split_and!.
  - intros Hn Hnone. rewrite validate_claims_run_checks.
    apply (run_checks_first_failure conf now nonce vn
      (checks_before AzpPresent) _ AzpPresent d d1 d1); [done|].
    rewrite Hpresent, Hnone, (proj2 (Z.ltb_lt 1 n) Hn).
    rewrite bool_decide_false; [done|]. by intros [? ?].
  - intros a Ha Hne. rewrite Ha in Hpresent, Hmatch.
    rewrite bool_decide_true, andb_false_r in Hpresent by eauto.
    rewrite validate_claims_run_checks.
    apply (run_checks_first_failure conf now nonce vn
      (checks_before AzpMatch) _ AzpMatch d d1 d1).
    + change (checks_before AzpMatch)
        with (checks_before AzpPresent ++ [AzpPresent]).
      rewrite run_checks_app, Hpre.
      by rewrite (run_checks_pass _ _ _ _ _ _ _ _ Hpresent).
    + rewrite Hmatch. destruct (eq_str a (CLIENT_ID conf)) eqn:Heq; [|done].
      by apply eq_str_true in Heq.
  - intros Ha. rewrite Ha in Hpresent, Hmatch.
    rewrite bool_decide_true, andb_false_r in Hpresent by eauto.
    rewrite (proj2 (eq_str_true _ _) eq_refl) in Hmatch.
    rewrite (run_checks_pass _ _ _ _ _ _ _ _ Hpresent).
    by rewrite (run_checks_pass _ _ _ _ _ _ _ _ Hmatch).
  - intros Hn Hnone. rewrite Hnone in Hpresent, Hmatch.
    rewrite (proj2 (Z.ltb_ge 1 n) Hn) in Hpresent. cbn [andb] in Hpresent.
    rewrite (run_checks_pass _ _ _ _ _ _ _ _ Hpresent).
    by rewrite (run_checks_pass _ _ _ _ _ _ _ _ Hmatch).
Qed.

Lemma rule_nonce_run (d : claims) :
  run_check Nonce d
  = (d, if vn && USE_NONCE conf
             && negb (eq_optstr (default PyNone (d !! "nonce")) nonce)
        then Raise (SuspiciousOperation "Incorrect id_token: nonce")
        else Return tt).
Proof. simpl. run_rule. by destruct (_ && _ && _). Qed.

(** C4, as the code has it. With [validate_nonce] true and [USE_NONCE]
    on, and once the eight rules before it have passed, the validator
    raises 'Incorrect id_token: nonce' exactly when the [nonce] claim,
    read as [None] when it is absent, differs from the [nonce] argument,
    and returns otherwise. An absent claim therefore fails against an
    expected string and passes when the [nonce] argument is [None]. *)
Theorem nonce_rule_compares_with_default (d d1 : claims) :
  run_checks (checks_before Nonce) d = (d1, Return tt) →
  vn = true →
  USE_NONCE conf = true →
  (validate d = (d1, Raise (SuspiciousOperation "Incorrect id_token: nonce"))
     ↔ default PyNone (d !! "nonce") ≠ nonce_value nonce)
  ∧ (validate d = (d1, Return tt)
     ↔ default PyNone (d !! "nonce") = nonce_value nonce)
  ∧ (d !! "nonce" = None →
     (validate d = (d1, Return tt) ↔ nonce = None)).
Proof.
  intros Hpre Hvn Huse.
  assert (d1 !! "nonce" = d !! "nonce") as Hnonce.
  { by apply (prefix_lookup _ _ _ _ _ Hpre). }
  assert (validate d = run_check Nonce d1) as ->.
  { rewrite validate_claims_run_checks.
    change check_order with (checks_before Nonce ++ [Nonce]).
    rewrite run_checks_app, Hpre. simpl.
    by destruct (rule_nonce conf nonce vn d1) as [? [[]|]]. }
  rewrite rule_nonce_run, Hnonce, Hvn, Huse. simpl.
  rewrite <-eq_optstr_true.
  assert (d !! "nonce" = None →
    eq_optstr (default PyNone (d !! "nonce")) nonce = true ↔ nonce = None).
  { intros ->. simpl. by destruct nonce. }
  destruct (eq_optstr _ nonce); intuition (try discriminate; try congruence).
Qed.

Lemma first_read_raises (d : claims) (k : string) (c : check) :
  first_read k = Some c → d !! k = None →
  run_check c d = (d, Raise (KeyError k)).
Proof.
  unfold first_read. intros Hc Hk. repeat case_decide; simplify_eq;
    simpl; run_rule; by rewrite Hk.
Qed.

Lemma prefix_lookup_none (cs : list check) (d d1 : claims) (o : outcome unit)
    (k : string) :
  run_checks cs d = (d1, o) → d !! k = None → d1 !! k = None.
Proof.
  intros Hrun Hk.
  destruct (run_checks_effect conf now nonce vn cs d) as [Hd|(s & Haud & Hd)];
    rewrite Hrun in Hd; simpl in Hd; subst d1; [done|].
  rewrite lookup_insert_ne; [done|]. intros <-. congruence.
Qed.

(** C10, as the code has it. A dictionary that lacks [iss], [aud], [exp]
    or [iat] never passes validation; when the rules that run before the
    first read of the missing claim pass, the validator raises
    [KeyError] for that claim; when one of them fails, its error is
    raised instead. *)
Theorem missing_required_claim (d : claims) (k : string) (c : check) :
  first_read k = Some c →
  d !! k = None →
  is_raise (validate d).2 = true
  ∧ (∀ d1, run_checks (checks_before c) d = (d1, Return tt) →
       validate d = (d1, Raise (KeyError k)))
  ∧ (∀ d1 e, run_checks (checks_before c) d = (d1, Raise e) →
       validate d = (d1, Raise e)).
Proof.
  intros Hc Hk.
  assert (∃ post, check_order = checks_before c ++ c :: post) as [post Hord].
  { unfold first_read in Hc. repeat case_decide; simplify_eq; by eexists. }
  assert (∀ d1, run_checks (checks_before c) d = (d1, Return tt) →
    validate d = (d1, Raise (KeyError k))) as Hreach.
  { intros d1 Hpre. rewrite validate_claims_run_checks, Hord.
    eapply run_checks_first_failure; [done|].
    apply first_read_raises; [done|]. by eapply prefix_lookup_none. }
  assert (∀ d1 e, run_checks (checks_before c) d = (d1, Raise e) →
    validate d = (d1, Raise e)) as Hearly.
  { intros d1 e Hpre. rewrite validate_claims_run_checks, Hord.
    by rewrite run_checks_app, Hpre. }
  split_and!; [|done..].
  destruct (run_checks (checks_before c) d) as [d1 [[]|e]] eqn:Hpre.
  - by rewrite (Hreach d1).
  - by rewrite (Hearly d1 e).
Qed.

(** Two rules that raise a [SuspiciousOperation] raise the same message
    exactly when they are the same rule or the two azp rules. *)
Lemma failure_messages_distinct_up_to_azp
    (c1 c2 : check) (d1 d1' d2 d2' : claims) (m1 m2 : string) :
  run_check c1 d1 = (d1', Raise (SuspiciousOperation m1)) →
  run_check c2 d2 = (d2', Raise (SuspiciousOperation m2)) →
  (m1 = m2 ↔
     c1 = c2
     ∨ (c1 = AzpPresent ∧ c2 = AzpMatch)
     ∨ (c1 = AzpMatch ∧ c2 = AzpPresent)).
Proof.
  intros Hm1%run_check_message Hm2%run_check_message.
  split.
  - intros <-. destruct c1, c2; simplify_eq/=; auto.
  - intros [<-|[[-> ->]|[-> ->]]]; simplify_eq/=; congruence.
Qed.

(** C9, as the code has it. The validator writes to the caller's
    dictionary in one place: once the issuer rule has passed, a
    bare-string [aud] is replaced by the one-element list holding it.
    Every other entry, and an [aud] that is not a string, are left as
    they were, on return and on every exception. *)
Theorem validate_claims_writes_only_aud (d : claims) :
  (validate d).1
  = match (run_check Issuer d).2, d !! "aud" with
    | Return _, Some (PyStr s) => <["aud" := PyList [PyStr s]]> d
    | _, _ => d
    end
  ∧ delete "aud" (validate d).1 = delete "aud" d.
Proof.
  assert ((validate d).1
  = match (run_check Issuer d).2, d !! "aud" with
    | Return _, Some (PyStr s) => <["aud" := PyList [PyStr s]]> d
    | _, _ => d
    end) as Heq.
  { rewrite validate_claims_run_checks. unfold check_order.
    pose proof (run_check_frame conf now nonce vn Issuer d) as Hframe.
    destruct (run_check Issuer d) as [d0 [[]|e]] eqn:Hiss;
      simpl in Hframe; rewrite Hframe in Hiss by done; clear Hframe.
    - rewrite (run_checks_pass _ _ _ _ _ _ _ _ Hiss). cbn [snd].
      destruct (rule_aud_normalize_effect conf now nonce vn d)
        as [Hsame|(s & Haud & Hnorm)].
      + destruct (run_check AudNormalize d) as [d2 o] eqn:Hnorm.
        simpl in Hsame. subst d2.
        assert (∀ s, d !! "aud" ≠ Some (PyStr s)) as Hnostr.
        { intros s Haud.
          rewrite (rule_aud_normalize_str d s Haud) in Hnorm.
          injection Hnorm as Hd _.
          apply (f_equal (.!! "aud")) in Hd.
          rewrite lookup_insert_eq, Haud in Hd. discriminate. }
        assert ((run_checks (AudNormalize :: [AudMember; AzpPresent; AzpMatch;
          Expiry; NotBefore; IssuedAt; Nonce]) d).1 = d) as ->.
        { destruct (run_checks_effect conf now nonce vn
            (AudNormalize :: [AudMember; AzpPresent; AzpMatch;
              Expiry; NotBefore; IssuedAt; Nonce]) d)
            as [?|(s & Haud & _)]; [done|]. by destruct (Hnostr s). }
        destruct (d !! "aud") as [[]|]; try done. by destruct (Hnostr s).
      + rewrite (run_checks_pass _ _ _ _ _ _ _ _ Hnorm), Haud.
        destruct (run_checks_effect conf now nonce vn
          [AudMember; AzpPresent; AzpMatch; Expiry; NotBefore; IssuedAt; Nonce]
          (<["aud" := PyList [PyStr s]]> d)) as [?|(s' & Hs' & _)]; [done|].
        by rewrite lookup_insert_eq in Hs'.
    - by rewrite (run_checks_fail _ _ _ _ _ _ _ _ _ Hiss). }
  split; [done|]. rewrite Heq.
  destruct (run_check Issuer d).2; [|done].
  destruct (d !! "aud") as [[]|]; try done. apply delete_insert_eq.
Qed.
End claims.

Section token.
Context `{UrlLib} {K : Type} `{JwkestLib K} (conf : settings).
Context (now : Z) (nonce : option string) (vn : bool).


(** C1, as the code has it. When the keys are loaded and
    [verify_compact] raises a [JWKESTException] of any kind, the function
    returns [None]: it raises nothing and returns no dictionary. *)
Theorem verification_failure_returns_none
    (jws : string) (keys : list (jwk K)) (kind : jwkest_kind) :
  _get_jwks_keys conf (shared_key conf) = Return keys →
  verify_compact (force_bytes jws) keys = Raise (JWKESTException kind) →
  validate_and_return_id_token conf now jws nonce vn = Return None
  ∧ is_raise (validate_and_return_id_token conf now jws nonce vn) = false
  ∧ ∀ d, validate_and_return_id_token conf now jws nonce vn ≠ Return (Some d).
Proof.
  intros Hkeys Hver.
  assert (validate_and_return_id_token conf now jws nonce vn = Return None)
    as ->; [|done].
  unfold validate_and_return_id_token. cbn zeta. rewrite Hkeys. simpl.
  by rewrite Hver.
Qed.

(** A [JWKESTException] raised while the keys are loaded is caught by
    the same handler. *)
Lemma key_loading_failure_returns_none (jws : string) (kind : jwkest_kind) :
  _get_jwks_keys conf (shared_key conf) = Raise (JWKESTException kind) →
  validate_and_return_id_token conf now jws nonce vn = Return None.
Proof.
  intros Hkeys. unfold validate_and_return_id_token. cbn zeta.
  by rewrite Hkeys.
Qed.

(** Any other exception of the libraries, and any exception of the
    claim validation, leaves the function as it is. *)
Lemma validation_failure_is_raised
    (jws : string) (keys : list (jwk K)) (id_token d : claims) (e : exn) :
  _get_jwks_keys conf (shared_key conf) = Return keys →
  verify_compact (force_bytes jws) keys = Return id_token →
  _validate_claims conf now nonce vn id_token = (d, Raise e) →
  validate_and_return_id_token conf now jws nonce vn = Raise e.
Proof.
  intros Hkeys Hver Hval. unfold validate_and_return_id_token. cbn zeta.
  rewrite Hkeys. simpl. by rewrite Hver, Hval.
Qed.

End token.

(** ** The claims on concrete tokens *)

Module Witness.
Import Scenario.

(** A bare-string audience of another client: issuer and normalisation
    pass, membership fails, and nothing after it is consulted. *)
Lemma validate_claims_ordered_fail_fast_witness :
  validate None true other_aud
  = (<["aud" := PyList [PyStr "clientB"]]> good,
     Raise (SuspiciousOperation "Invalid audience")).
Proof.
  refine (proj1 (validate_claims_ordered_fail_fast (H := cpython_urllib)
    conf now None true other_aud
    (<["aud" := PyList [PyStr "clientB"]]> good)
    (<["aud" := PyList [PyStr "clientB"]]> good)
    [Issuer; AudNormalize] [AzpPresent; AzpMatch; Expiry; NotBefore; IssuedAt; Nonce]
    AudMember _ _ _ _)); reflexivity.
Defined.

Lemma expiry_passes_iff_now_le_exp_witness :
  validate (Some "abc123") true expired
  = (expired, Raise (SuspiciousOperation "Signature has expired")).
Proof.
  refine (proj2 (proj1 (proj2 (expiry_passes_iff_now_le_exp
    (H := cpython_urllib) conf now (Some "abc123") true
    expired expired (PyInt (now - 1)) (now - 1) _ _ _))) _);
    [reflexivity..|unfold now; lia].
Defined.

Example expiry_at_now_passes :
  check Expiry None true (<["exp" := PyInt now]> good)
  = (<["exp" := PyInt now]> good, Return tt).
Proof. reflexivity. Qed.

Example expiry_in_an_hour_passes :
  check Expiry None true good = (good, Return tt)
  ∧ good !! "exp" = Some (PyInt (now + 3600)).
Proof. split; reflexivity. Qed.

Lemma issuer_check_compares_netloc_witness :
  validate (Some "abc123") true foreign_iss
  = (foreign_iss, Raise (SuspiciousOperation "Invalid issuer")).
Proof.
  refine (proj2 (proj1 (proj2 (issuer_check_compares_netloc
    (H := cpython_urllib) conf now (Some "abc123") true foreign_iss
    "https://evil.example.org/op" ("https", "evil.example.org")
    ("https", "op.example.com") _ _ _))) _);
    [reflexivity..|discriminate].
Defined.

(** The scenario of the specification: [iss] without and the provider
    endpoint with a trailing slash. *)
Example issuer_trailing_slash_passes :
  good !! "iss" = Some (PyStr "https://op.example.com")
  ∧ PROVIDER_ENDPOINT conf = "https://op.example.com/"
  ∧ check Issuer None true good = (good, Return tt).
Proof. split_and!; reflexivity. Qed.

(** An issuer that differs from the provider endpoint in its scheme
    only: the authorities of the specification differ, the rule passes
    and so does the validation. *)
Lemma issuer_check_ignores_scheme :
  http_iss !! "iss" = Some (PyStr "http://op.example.com")
  ∧ spec_authority (H := cpython_urllib) "http://op.example.com"
    ≠ spec_authority (H := cpython_urllib) (PROVIDER_ENDPOINT conf)
  ∧ check Issuer (Some "abc123") true http_iss = (http_iss, Return tt)
  ∧ validate (Some "abc123") true http_iss = (http_iss, Return tt).
Proof. split_and!; [reflexivity|discriminate|reflexivity..]. Qed.

Lemma bare_string_audience_witness :
  checks [Issuer; AudNormalize; AudMember] None true bare_aud
  = (good, Return tt).
Proof.
  destruct (bare_string_audience (H := cpython_urllib) conf now None true
    bare_aud "clientA") as (Hnorm & Hmember & _); [reflexivity..|].
  change [Issuer; AudNormalize; AudMember]
    with ([Issuer; AudNormalize] ++ [AudMember]).
  unfold checks. rewrite run_checks_app, Hnorm.
  rewrite (run_checks_pass _ _ _ _ _ _ _ _ (proj2 Hmember eq_refl)).
  reflexivity.
Defined.

Example aud_bare_string_passes :
  validate (Some "abc123") true bare_aud = (good, Return tt).
Proof. reflexivity. Qed.

Example aud_bare_string_miss :
  validate (Some "abc123") true other_aud
  = (<["aud" := PyList [PyStr "clientB"]]> good,
     Raise (SuspiciousOperation "Invalid audience")).
Proof. reflexivity. Qed.

Lemma authorized_party_rules_witness :
  validate (Some "abc123") true two_aud
  = (two_aud, Raise (SuspiciousOperation "Incorrect id_token: azp")).
Proof.
  refine (proj1 (authorized_party_rules (H := cpython_urllib) conf now
    (Some "abc123") true two_aud two_aud
    (PyList [PyStr "clientA"; PyStr "clientB"]) 2 _ _ _) _ _);
    [reflexivity..|lia|reflexivity].
Defined.

Example two_audiences_with_azp_pass :
  checks [AzpPresent; AzpMatch] (Some "abc123") true two_aud_azp
    = (two_aud_azp, Return tt)
  ∧ validate (Some "abc123") true two_aud_azp = (two_aud_azp, Return tt).
Proof. split; reflexivity. Qed.

Example single_audience_foreign_azp :
  validate (Some "abc123") true (<["azp" := PyStr "clientB"]> good)
  = (<["azp" := PyStr "clientB"]> good,
     Raise (SuspiciousOperation "Incorrect id_token: azp")).
Proof. reflexivity. Qed.

Lemma nonce_rule_compares_with_default_witness :
  validate (Some "abc123") true no_nonce
  = (no_nonce, Raise (SuspiciousOperation "Incorrect id_token: nonce")).
Proof.
  refine (proj2 (proj1 (nonce_rule_compares_with_default
    (H := cpython_urllib) conf now (Some "abc123") true no_nonce no_nonce
    _ _ _)) _); [reflexivity..|discriminate].
Defined.

(** Enforcement on, no [nonce] claim, no expected nonce (the default
    arguments of [validate_and_return_id_token]): validation passes. *)
Lemma absent_nonce_passes_without_expected_nonce :
  USE_NONCE conf = true
  ∧ no_nonce !! "nonce" = None
  ∧ validate None true no_nonce = (no_nonce, Return tt).
Proof. split_and!; reflexivity. Qed.

Example nonce_mismatch :
  validate (Some "abc123") true (<["nonce" := PyStr "xyz"]> good)
  = (<["nonce" := PyStr "xyz"]> good,
     Raise (SuspiciousOperation "Incorrect id_token: nonce")).
Proof. reflexivity. Qed.

Lemma missing_required_claim_witness :
  validate (Some "abc123") true no_exp = (no_exp, Raise (KeyError "exp")).
Proof.
  refine (proj1 (proj2 (missing_required_claim (H := cpython_urllib) conf now
    (Some "abc123") true no_exp "exp" Expiry _ _)) no_exp _); reflexivity.
Defined.

(** A token of a foreign issuer that has no [aud], [exp] or [iat]: the
    issuer rule answers before any of them is read. *)
Lemma missing_claims_behind_invalid_issuer :
  only_foreign_iss !! "aud" = None
  ∧ only_foreign_iss !! "exp" = None
  ∧ only_foreign_iss !! "iat" = None
  ∧ validate None true only_foreign_iss
    = (only_foreign_iss, Raise (SuspiciousOperation "Invalid issuer")).
Proof. split_and!; reflexivity. Qed.

(** A token with two audiences and no [azp], and a token with one
    audience and the [azp] of another client: the two violations raise
    one and the same error. *)
Lemma azp_violations_raise_the_same_error :
  check AzpPresent None true two_aud
    = (two_aud, Raise (SuspiciousOperation "Incorrect id_token: azp"))
  ∧ check AzpMatch None true foreign_azp
    = (foreign_azp, Raise (SuspiciousOperation "Incorrect id_token: azp"))
  ∧ (validate (Some "abc123") true two_aud).2
    = (validate (Some "abc123") true foreign_azp).2.
Proof. split_and!; reflexivity. Qed.

(** The caller's dictionary after the validation of a token with a
    bare-string [aud]. *)
Lemma validate_claims_rewrites_bare_aud :
  bare_aud !! "aud" = Some (PyStr "clientA")
  ∧ (validate (Some "abc123") true bare_aud).1 !! "aud"
    = Some (PyList [PyStr "clientA"])
  ∧ (validate (Some "abc123") true bare_aud).1 ≠ bare_aud.
Proof.
  split_and!; [reflexivity..|].
  intros Heq. apply (f_equal (.!! "aud")) in Heq. vm_compute in Heq.
  discriminate.
Qed.

Lemma verification_failure_returns_none_witness :
  validate_token tampered (Some "abc123") true = Return None.
Proof.
  refine (proj1 (verification_failure_returns_none (H := cpython_urllib)
    (H0 := toy_jwkest) conf now (Some "abc123") true tampered
    [OctKey "s3cret"] BadSignature _ _)); reflexivity.
Defined.

(** A token whose signature does not verify: the call returns [None]
    and raises no error. *)
Lemma signature_failure_is_not_raised :
  verify_compact (JwkestLib := toy_jwkest) (force_bytes tampered)
    [OctKey "s3cret"] = Raise (JWKESTException BadSignature)
  ∧ validate_token tampered (Some "abc123") true = Return None
  ∧ is_raise (validate_token tampered (Some "abc123") true) = false.
Proof. split_and!; reflexivity. Qed.

Example verified_token_is_returned :
  validate_token signed_good (Some "abc123") true = Return (Some good).
Proof. reflexivity. Qed.
(** An [iss] that is not a string: a false value parses to the [bytes]
    netloc [b''], which no [str] equals; a true one has no [decode]. *)
Example null_issuer :
  validate None true (<["iss" := PyNone]> good)
  = (<["iss" := PyNone]> good, Raise (SuspiciousOperation "Invalid issuer")).
Proof. reflexivity. Qed.

Example integer_issuer :
  validate None true (<["iss" := PyInt 5]> good)
  = (<["iss" := PyInt 5]> good, Raise AttributeError).
Proof. reflexivity. Qed.

(** An [exp] that is a string cannot be compared with the clock. *)
Example string_exp :
  validate None true (<["exp" := PyStr "1700003600"]> good)
  = (<["exp" := PyStr "1700003600"]> good, Raise TypeError).
Proof. reflexivity. Qed.

(** A token older than [ID_TOKEN_MAX_AGE], and one not yet valid. *)
Example stale_token :
  validate (Some "abc123") true (<["iat" := PyInt (now - 601)]> good)
  = (<["iat" := PyInt (now - 601)]> good,
     Raise (SuspiciousOperation "Incorrect id_token: iat")).
Proof. reflexivity. Qed.

Example early_token :
  validate (Some "abc123") true (<["nbf" := PyInt (now + 1)]> good)
  = (<["nbf" := PyInt (now + 1)]> good,
     Raise (SuspiciousOperation "Incorrect id_token: nbf")).
Proof. reflexivity. Qed.

End Witness.

(** ** Further properties of the validator *)

Section passes.
Context `{UrlLib} (conf : settings).
Context (now : Z) (nonce : option string) (vn : bool).

#[local] Abbreviation validate := (_validate_claims conf now nonce vn).
#[local] Abbreviation run_check := (run_check conf now nonce vn).
#[local] Abbreviation run_checks := (run_checks conf now nonce vn).

Lemma normalized_lookup (d : claims) (k : string) :
  k ≠ "aud" → normalized d !! k = d !! k.
Proof.
  intros Hk. unfold normalized. destruct (d !! "aud") as [[]|]; try done.
  by rewrite lookup_insert_ne.
Qed.

Lemma normalized_aud (d : claims) :
  normalized d !! "aud"
  = (λ v, if isinstance_str v then PyList [v] else v) <$> d !! "aud".
Proof.
  unfold normalized. destruct (d !! "aud") as [[]|] eqn:Haud; simpl;
    try done. apply lookup_insert_eq.
Qed.

Lemma normalized_idemp (d : claims) : normalized (normalized d) = normalized d.
Proof.
  unfold normalized at 1. rewrite normalized_aud.
  by destruct (d !! "aud") as [[]|].
Qed.

Lemma rule_aud_normalize_run (d : claims) :
  run_check AudNormalize d
  = match d !! "aud" with
    | Some _ => (normalized d, Return tt)
    | None => (d, Raise (KeyError "aud"))
    end.
Proof.
  simpl. unfold normalized. run_rule.
  destruct (d !! "aud") as [[]|] eqn:Haud; simpl; try done.
  by rewrite Haud.
Qed.

Lemma issuer_passes (d : claims) :
  (run_check Issuer d).2 = Return tt ↔ issuer_ok conf d.
Proof.
  unfold issuer_ok. simpl. run_rule. split.
  - intros Hrun.
    destruct (d !! "iss") as [[]|] eqn:Hiss; simpl in Hrun; try done;
      split_cases.
    match goal with Hn : negb _ = false |- _ =>
      apply negb_false_iff, String.eqb_eq in Hn end.
    eauto 10.
  - intros (s & p & q & -> & -> & -> & Heq). simpl.
    by rewrite (proj2 (String.eqb_eq _ _) Heq).
Qed.

Lemma aud_member_passes (d : claims) :
  (run_check AudMember d).2 = Return tt
  ↔ ∃ v, d !! "aud" = Some v ∧ contains_str v (CLIENT_ID conf) = Return true.
Proof.
  simpl. unfold_rules. unfold_monad. split.
  - intros Hrun. destruct (d !! "aud") as [v|] eqn:Haud; [|done].
    exists v. split; [done|].
    destruct (contains_str v (CLIENT_ID conf)) as [[]|]; simpl in *; done.
  - intros (v & -> & ->). done.
Qed.

Lemma azp_present_passes (d : claims) :
  (run_check AzpPresent d).2 = Return tt
  ↔ ∃ v n, d !! "aud" = Some v ∧ len v = Return n
           ∧ (1 < n → is_Some (d !! "azp")).
Proof.
  simpl. unfold_rules. unfold_monad. split.
  - intros Hrun. destruct (d !! "aud") as [v|] eqn:Haud; [|done].
    destruct (len v) as [n|] eqn:Hlen; [|done]. exists v, n.
    split_and!; [done..|]. intros Hn.
    rewrite (proj2 (Z.ltb_lt 1 n) Hn) in Hrun. simpl in Hrun.
    destruct (d !! "azp"); [eauto|].
    rewrite bool_decide_false in Hrun; [done|]. by intros [? ?].
  - intros (v & n & -> & -> & Hazp). simpl.
    destruct (Z.ltb_spec 1 n) as [Hn|Hn]; [|done]. simpl.
    by rewrite bool_decide_true by auto.
Qed.

Lemma azp_match_passes (d : claims) :
  (run_check AzpMatch d).2 = Return tt ↔ azp_ok conf d.
Proof.
  unfold azp_ok. rewrite rule_azp_match_run. simpl.
  destruct (d !! "azp") as [a|]; [|naive_solver].
  destruct (eq_str a (CLIENT_ID conf)) eqn:Heq.
  - apply eq_str_true in Heq. naive_solver.
  - split; [done|]. intros Ha. rewrite (Ha a eq_refl) in Heq.
    by rewrite (proj2 (eq_str_true _ _) eq_refl) in Heq.
Qed.

Lemma expiry_passes (d : claims) :
  (run_check Expiry d).2 = Return tt ↔ not_expired now d.
Proof.
  unfold not_expired. simpl. run_rule. split.
  - intros Hrun. destruct (d !! "exp") as [v|]; simpl in Hrun; [|done].
    destruct (as_int v) as [e|] eqn:He; simpl in Hrun; [|done]. exists v, e. split_and!; [done..|].
    destruct (Z.ltb_spec e now); [done|lia].
  - intros (v & e & -> & -> & Hle). simpl.
    by rewrite (proj2 (Z.ltb_ge e now) Hle).
Qed.

Lemma not_before_passes (d : claims) :
  (run_check NotBefore d).2 = Return tt ↔ already_valid now d.
Proof.
  unfold already_valid. simpl. run_rule.
  destruct (d !! "nbf") as [b|] eqn:Hnbf.
  - rewrite bool_decide_true by eauto. simpl. rewrite Hnbf. simpl.
    destruct (as_int b) as [n|] eqn:Hn; simpl.
    + destruct (Z.ltb_spec now n); split; try done.
      * intros Hb. destruct (Hb b eq_refl) as (n' & Hn' & ?).
        rewrite Hn in Hn'. injection Hn' as <-. lia.
      * intros _ b' [= <-]. exists n. split; [done|lia].
    + split; [done|]. intros Hb. destruct (Hb b eq_refl) as (? & Hn' & _).
      congruence.
  - rewrite bool_decide_false by (by intros [? ?]). simpl. naive_solver.
Qed.

Lemma issued_at_passes (d : claims) :
  (run_check IssuedAt d).2 = Return tt ↔ fresh conf now d.
Proof.
  unfold fresh. simpl. run_rule. split.
  - intros Hrun. destruct (d !! "iat") as [v|]; simpl in Hrun; [|done].
    destruct (as_int v) as [i|] eqn:Hi; simpl in Hrun; [|done]. exists v, i. split_and!; [done..|].
    destruct (Z.ltb_spec (i + ID_TOKEN_MAX_AGE conf) now); [done|lia].
  - intros (v & i & -> & -> & Hle). simpl.
    by rewrite (proj2 (Z.ltb_ge _ now) Hle).
Qed.

Lemma nonce_passes (d : claims) :
  (run_check Nonce d).2 = Return tt ↔ nonce_ok conf nonce vn d.
Proof.
  unfold nonce_ok. rewrite rule_nonce_run. simpl.
  rewrite <-eq_optstr_true.
  destruct (vn && USE_NONCE conf); simpl; [|naive_solver].
  destruct (eq_optstr _ nonce); naive_solver.
Qed.

End passes.

Ltac solve_elem :=
  repeat first [apply list_elem_of_here | apply list_elem_of_further].

Ltac solve_not_elem :=
  let Hin := fresh "Hin" in
  intros Hin;
  repeat (apply elem_of_cons in Hin as [Hin|Hin]; [discriminate Hin|]);
  by apply elem_of_nil in Hin.

Section more.
Context `{UrlLib} (conf : settings).
Context (now : Z) (nonce : option string) (vn : bool).

#[local] Abbreviation validate := (_validate_claims conf now nonce vn).
#[local] Abbreviation run_check := (run_check conf now nonce vn).
#[local] Abbreviation run_checks := (run_checks conf now nonce vn).

(** A rule is blind to the claims it does not look up. *)
Lemma run_check_insert_other (c : check) (k : string) (v : pyval)
    (d : claims) :
  k ∉ reads c →
  run_check c (<[k := v]> d)
  = (<[k := v]> (run_check c d).1, (run_check c d).2).
Proof.
  intros Hk.
  destruct c; simpl in Hk; set_unfold in Hk; simpl; run_rule;
    repeat (first
      [ progress (rewrite ?lookup_insert_ne in * by naive_solver)
      | case_match; simplify_eq/= ]);
    try done.
  by rewrite insert_insert_ne by naive_solver.
Qed.

Lemma run_checks_insert_other (cs : list check) (k : string) (v : pyval)
    (d : claims) :
  (∀ c, c ∈ cs → k ∉ reads c) →
  run_checks cs (<[k := v]> d)
  = (<[k := v]> (run_checks cs d).1, (run_checks cs d).2).
Proof.
  revert d. induction cs as [|c cs IH]; intros d Hk; simpl; [done|].
  rewrite run_check_insert_other by (apply Hk; left).
  destruct (run_check c d) as [d1 [[]|e]]; simpl; [|done].
  apply IH. intros c' Hc'. apply Hk. by right.
Qed.

Lemma run_checks_frame (cs : list check) (d : claims) :
  AudNormalize ∉ cs → (run_checks cs d).1 = d.
Proof.
  revert d. induction cs as [|c cs IH]; intros d Hcs; simpl; [done|].
  apply not_elem_of_cons in Hcs as [Hc Hcs].
  pose proof (run_check_frame conf now nonce vn c d (not_eq_sym Hc)) as Hframe.
  destruct (run_check c d) as [d1 [[]|e]]; simpl in *; subst d1; [|done].
  by apply IH.
Qed.

Lemma run_checks_pass_iff (cs : list check) (d : claims) :
  AudNormalize ∉ cs →
  (run_checks cs d).2 = Return tt
  ↔ ∀ c, c ∈ cs → (run_check c d).2 = Return tt.
Proof.
  revert d. induction cs as [|c cs IH]; intros d Hcs; simpl.
  { split; [|done]. intros _ c Hc. by apply elem_of_nil in Hc. }
  apply not_elem_of_cons in Hcs as [Hc Hcs].
  pose proof (run_check_frame conf now nonce vn c d (not_eq_sym Hc)) as Hframe.
  destruct (run_check c d) as [d1 [[]|e]] eqn:Hrun; simpl in *; subst d1.
  - rewrite IH by done. split.
    + intros Hall c' [->|Hin]%elem_of_cons; [by rewrite Hrun|auto].
    + intros Hall c' Hin. apply Hall. by right.
  - split; [done|]. intros Hall.
    specialize (Hall c (list_elem_of_here _ _)). by rewrite Hrun in Hall.
Qed.

Lemma accepted_checks (d : claims) :
  accepted conf now nonce vn d
  ↔ ∀ c, c ∈ Issuer :: after_normalize → (run_check c d).2 = Return tt.
Proof.
  unfold accepted.
  rewrite <-issuer_passes, <-azp_match_passes, <-expiry_passes,
    <-not_before_passes, <-issued_at_passes,
    <-(nonce_passes conf now nonce vn).
  assert (audience_ok conf d
    ↔ (run_check AudMember d).2 = Return tt
      ∧ (run_check AzpPresent d).2 = Return tt) as ->.
  { rewrite aud_member_passes, azp_present_passes. unfold audience_ok.
    split.
    - intros (v & n & ? & ? & ? & ?). split; eauto 10.
    - intros [(v & Hv & ?) (v' & n & Hv' & ? & ?)].
      rewrite Hv in Hv'. injection Hv' as <-. eauto 10. }
  split.
  - intros (? & [? ?] & ? & ? & ? & ? & ?) c Hc.
    unfold after_normalize in Hc. set_unfold in Hc.
    by repeat destruct Hc as [->|Hc].
  - intros Hall. unfold after_normalize in Hall.
    split_and!; apply Hall; solve_elem.
Qed.

Lemma after_normalize_frame : AudNormalize ∉ after_normalize.
Proof. unfold after_normalize. solve_not_elem. Qed.

(** The validator in three cases: the issuer rule raises, [aud] is
    missing, or the seven rules after normalisation decide. *)
Lemma validate_unfold (d : claims) :
  validate d
  = match d !! "aud", (run_check Issuer d).2 with
    | _, Raise e => (d, Raise e)
    | None, Return _ => (d, Raise (KeyError "aud"))
    | Some _, Return _ =>
        (normalized d, (run_checks after_normalize (normalized d)).2)
    end.
Proof.
  rewrite validate_claims_run_checks.
  change check_order with (Issuer :: AudNormalize :: after_normalize).
  pose proof (run_check_frame conf now nonce vn Issuer d) as Hframe.
  destruct (run_check Issuer d) as [d0 [[]|e]] eqn:Hiss;
    simpl in Hframe; rewrite Hframe in Hiss by done; clear Hframe.
  - rewrite (run_checks_pass _ _ _ _ _ _ _ _ Hiss). cbn [snd].
    pose proof (rule_aud_normalize_run conf now nonce vn d) as Hnorm.
    destruct (d !! "aud") as [v|].
    + rewrite (run_checks_pass _ _ _ _ _ _ _ _ Hnorm).
      rewrite (surjective_pairing (run_checks _ (normalized d))) at 1.
      by rewrite (run_checks_frame _ _ after_normalize_frame).
    + by rewrite (run_checks_fail _ _ _ _ _ _ _ _ _ Hnorm).
  - rewrite (run_checks_fail _ _ _ _ _ _ _ _ _ Hiss). cbn [snd].
    by destruct (d !! "aud").
Qed.

Lemma issuer_normalized (d : claims) :
  (run_check Issuer (normalized d)).2 = (run_check Issuer d).2.
Proof.
  unfold normalized. destruct (d !! "aud") as [[]|]; try done.
  rewrite run_check_insert_other; [done|]. simpl. solve_not_elem.
Qed.

Lemma validate_accepts (d : claims) :
  (validate d = (normalized d, Return tt)
   ↔ accepted conf now nonce vn (normalized d))
  ∧ ((validate d).2 = Return tt
     ↔ accepted conf now nonce vn (normalized d)).
Proof.
  pose proof after_normalize_frame as Hnot.
  pose proof (validate_unfold d) as Hval.
  pose proof (issuer_normalized d) as Hiss.
  remember after_normalize as rest eqn:Hrest.
  assert (accepted conf now nonce vn (normalized d) → is_Some (d !! "aud"))
    as Haud.
  { intros (_ & (v & n & Hv & _) & _). rewrite normalized_aud in Hv.
    destruct (d !! "aud"); [eauto|done]. }
  assert ((validate d).2 = Return tt
          ↔ accepted conf now nonce vn (normalized d)) as Hiff.
  { rewrite Hval, accepted_checks, <-Hrest. split.
    - intros Hret c Hc.
      destruct (d !! "aud") as [v|], (run_check Issuer d).2 as [[]|e] eqn:Hi;
        cbn [snd] in Hret; try done.
      apply elem_of_cons in Hc as [->|Hc]; [by rewrite Hiss|].
      by apply (run_checks_pass_iff rest (normalized d) Hnot).
    - intros Hall.
      pose proof (Hall Issuer (list_elem_of_here _ _)) as Hi.
      rewrite Hiss in Hi. rewrite Hi.
      assert (accepted conf now nonce vn (normalized d)) as Hacc.
      { apply accepted_checks. by rewrite <-Hrest. }
      destruct (Haud Hacc) as [v ->]. cbn [snd].
      apply (run_checks_pass_iff rest (normalized d) Hnot).
      intros c Hc. apply Hall. by right. }
  split; [|done]. rewrite <-Hiff. split; [by intros ->|].
  intros Hret. rewrite Hval in Hret |- *.
  destruct (d !! "aud") as [v|], (run_check Issuer d).2 as [[]|e];
    cbn [snd] in *; try done. by rewrite Hret.
Qed.

(** X1. For a dictionary whose [exp], [nbf] and [iat] are integers where
    they are present, the validator returns exactly when the normalised
    form meets the seven conditions of [accepted], and it then leaves
    the normalised form behind. *)
Theorem validate_returns_iff_accepted (d : claims) :
  integer_times d = true →
  (validate d = (normalized d, Return tt)
   ↔ accepted conf now nonce vn (normalized d))
  ∧ ((validate d).2 = Return tt
     ↔ accepted conf now nonce vn (normalized d)).
Proof. intros _. apply validate_accepts. Qed.

Lemma validate_again (d : claims) :
  validate (validate d).1 = validate d.
Proof.
  rewrite (validate_unfold d).
  destruct (d !! "aud") as [v|] eqn:Haud,
    (run_check Issuer d).2 as [[]|e] eqn:Hiss; cbn [fst].
  - rewrite (validate_unfold (normalized d)), issuer_normalized, Hiss.
    rewrite normalized_aud, Haud. simpl. by rewrite normalized_idemp.
  - by rewrite (validate_unfold d), Haud, Hiss.
  - by rewrite (validate_unfold d), Haud, Hiss.
  - by rewrite (validate_unfold d), Haud, Hiss.
Qed.

(** X2. Validating the dictionary a validation left behind gives the
    same outcome and changes nothing more: the normalisation of [aud] is
    done once, and no rule depends on whether it was needed. *)
Theorem validate_idempotent (d : claims) :
  validate (validate d).1 = validate d.
Proof. apply validate_again. Qed.

(** X16. A bare-string [aud] and the one-element list holding it get
    the same verdict: validating the normalised dictionary gives the
    outcome of the original one. *)
Theorem bare_aud_and_list_same_verdict (d : claims) :
  validate (normalized d) = (normalized (validate d).1, (validate d).2).
Proof.
  rewrite (validate_unfold (normalized d)), (validate_unfold d).
  rewrite issuer_normalized, normalized_aud, normalized_idemp.
  destruct (d !! "aud") as [v|] eqn:Haud,
    (run_check Issuer d).2 as [[]|e] eqn:Hiss;
    cbn [fst snd fmap option_fmap option_map]; try done.
  by rewrite normalized_idemp.
Qed.

(** The rule that fails first is determined by the order. *)
Lemma check_order_split (pre post : list check) (c : check) :
  check_order = pre ++ c :: post → pre = checks_before c.
Proof.
  unfold check_order. intros Hord.
  do 10 (destruct pre as [|? pre]; simplify_eq/=; try done).
Qed.

Lemma validate_raise_inv (d d2 : claims) (e : exn) :
  validate d = (d2, Raise e) →
  ∃ c d1,
    run_checks (checks_before c) d = (d1, Return tt)
    ∧ run_check c d1 = (d2, Raise e).
Proof.
  rewrite validate_claims_run_checks.
  intros (pre & c & post & d1 & Hord & Hpre & Hc)%run_checks_raise_inv.
  apply check_order_split in Hord as ->. eauto.
Qed.

Lemma run_check_error (c : check) (d d' : claims) (e : exn) :
  run_check c d = (d', Raise e) → validator_error e.
Proof.
  destruct c; simpl; run_rule; intros Hrun; split_cases;
    simpl; try done; solve_elem.
Qed.

Lemma validate_raises_validator_error (d d' : claims) (e : exn) :
  validate d = (d', Raise e) → validator_error e.
Proof.
  intros (c & d1 & _ & Hc)%validate_raise_inv.
  by eapply run_check_error.
Qed.

(** X3. An exception that leaves the validator is a
    [SuspiciousOperation] with one of seven messages, a [KeyError] for
    [iss], [aud], [exp] or [iat], a [TypeError], an [AttributeError] or a
    [ValueError]. The optional claims [azp], [nbf] and [nonce] never
    give a [KeyError]. *)
Theorem validate_error_vocabulary (d d' : claims) (e : exn) :
  validate d = (d', Raise e) → validator_error e.
Proof. apply validate_raises_validator_error. Qed.

Lemma check_order_at (c : check) :
  ∃ post, check_order = checks_before c ++ c :: post.
Proof. destruct c; by eexists. Qed.

(** When the rules before [c] pass and no other rule shares its
    message, the validator raises that message exactly when [c] does. *)
Lemma validate_raises_message_iff (c : check) (m : string) (d d1 : claims) :
  failure_message c = Some m →
  (∀ c', failure_message c' = Some m → c' = c) →
  run_checks (checks_before c) d = (d1, Return tt) →
  (validate d).2 = Raise (SuspiciousOperation m)
  ↔ (run_check c d1).2 = Raise (SuspiciousOperation m).
Proof.
  intros Hm Honly Hpre. split.
  - destruct (validate d) as [d2 o] eqn:Hval. simpl. intros ->.
    apply validate_raise_inv in Hval as (c' & d1' & Hpre' & Hc').
    pose proof (run_check_message _ _ _ _ _ _ _ _ Hc') as Hm'.
    apply Honly in Hm' as ->. rewrite Hpre in Hpre'.
    injection Hpre' as <-. by rewrite Hc'.
  - destruct (run_check c d1) as [d2 o] eqn:Hc. simpl. intros ->.
    destruct (check_order_at c) as [post Hord].
    rewrite validate_claims_run_checks, Hord.
    by rewrite (run_checks_first_failure _ _ _ _ _ _ _ _ _ _ _ Hpre Hc).
Qed.

Lemma rule_not_before_run (d : claims) :
  run_check NotBefore d
  = (d, match d !! "nbf" with
        | None => Return tt
        | Some b =>
            match as_int b with
            | Some n =>
                if now <? n
                then Raise (SuspiciousOperation "Incorrect id_token: nbf")
                else Return tt
            | None => Raise TypeError
            end
        end).
Proof.
  simpl. run_rule. destruct (d !! "nbf") as [b|] eqn:Hnbf.
  - rewrite bool_decide_true by eauto. simpl. rewrite Hnbf. simpl.
    destruct (as_int b); [|done]. simpl. by destruct (now <? _).
  - by rewrite bool_decide_false by (by intros [? ?]).
Qed.

(** X4. Once the six rules before it have passed: for an [nbf] claim
    that is an integer, the validator raises 'Incorrect id_token: nbf'
    exactly when [nbf] is greater than the current time, and the rule
    passes exactly when it is not, so also when [nbf] equals the current
    time; for a token without [nbf] the rule passes and that error is
    not raised. *)
Theorem not_before_rule (d d1 : claims) :
  run_checks (checks_before NotBefore) d = (d1, Return tt) →
  (∀ b n, d !! "nbf" = Some b → as_int b = Some n →
     ((validate d).2 = Raise (SuspiciousOperation "Incorrect id_token: nbf")
      ↔ now < n)
     ∧ (run_check NotBefore d1 = (d1, Return tt) ↔ n ≤ now))
  ∧ (d !! "nbf" = None →
     run_check NotBefore d1 = (d1, Return tt)
     ∧ (validate d).2 ≠ Raise (SuspiciousOperation "Incorrect id_token: nbf")).
Proof.
  intros Hpre.
  assert (d1 !! "nbf" = d !! "nbf") as Hnbf.
  { by apply (prefix_lookup _ _ _ _ _ _ _ _ _ Hpre). }
  pose proof (rule_not_before_run d1) as Hrule. rewrite Hnbf in Hrule.
  assert ((validate d).2
            = Raise (SuspiciousOperation "Incorrect id_token: nbf")
          ↔ (run_check NotBefore d1).2
            = Raise (SuspiciousOperation "Incorrect id_token: nbf")) as Hiff.
  { apply validate_raises_message_iff; [done| |done].
    intros c' Hc'. by destruct c'. }
  split.
  - intros b n Hb Hn. rewrite Hiff, Hrule, Hb, Hn. cbn [snd].
    destruct (Z.ltb_spec now n); split; split; try done; lia.
  - intros Hnone. rewrite Hiff, Hrule, Hnone. by split.
Qed.

Lemma rule_issued_at_run (d : claims) (v : pyval) (i : Z) :
  d !! "iat" = Some v → as_int v = Some i →
  run_check IssuedAt d
  = (d, if i + ID_TOKEN_MAX_AGE conf <? now
        then Raise (SuspiciousOperation "Incorrect id_token: iat")
        else Return tt).
Proof.
  intros Hiat Hi. simpl. run_rule. rewrite Hiat, Hi. simpl.
  by destruct (_ <? now).
Qed.

(** X5. Once the seven rules before it have passed, the validator
    raises 'Incorrect id_token: iat' exactly when the current time is
    greater than [iat + ID_TOKEN_MAX_AGE]; at
    [iat + ID_TOKEN_MAX_AGE] itself the rule still passes. *)
Theorem issued_at_rule (d d1 : claims) (v : pyval) (i : Z) :
  run_checks (checks_before IssuedAt) d = (d1, Return tt) →
  d !! "iat" = Some v →
  as_int v = Some i →
  ((validate d).2 = Raise (SuspiciousOperation "Incorrect id_token: iat")
   ↔ i + ID_TOKEN_MAX_AGE conf < now)
  ∧ (run_check IssuedAt d1 = (d1, Return tt)
     ↔ now ≤ i + ID_TOKEN_MAX_AGE conf).
Proof.
  intros Hpre Hiat Hi.
  assert (d1 !! "iat" = Some v) as Hiat1.
  { by rewrite (prefix_lookup _ _ _ _ _ _ _ _ _ Hpre). }
  pose proof (rule_issued_at_run d1 v i Hiat1 Hi) as Hrule.
  split.
  - rewrite (validate_raises_message_iff IssuedAt _ d d1); [|done| |done].
    2: { intros c' Hc'. by destruct c'. }
    rewrite Hrule. cbn [snd].
    destruct (Z.ltb_spec (i + ID_TOKEN_MAX_AGE conf) now); split;
      try done; lia.
  - rewrite Hrule.
    destruct (Z.ltb_spec (i + ID_TOKEN_MAX_AGE conf) now); split;
      try done; lia.
Qed.

Lemma existsb_eq_str (l : list pyval) (s : string) :
  existsb (λ x, eq_str x s) l = true ↔ PyStr s ∈ l.
Proof.
  rewrite existsb_exists. split.
  - intros (x & Hin & Hx). apply eq_str_true in Hx as ->.
    by apply list_elem_of_In.
  - intros Hin. exists (PyStr s). split; [by apply list_elem_of_In|].
    by apply eq_str_true.
Qed.

Lemma run_check_outcome (c : check) (d : claims) (o : outcome unit) :
  c ≠ AudNormalize → (run_check c d).2 = o → run_check c d = (d, o).
Proof.
  intros Hc Ho. rewrite (surjective_pairing (run_check c d)).
  by rewrite Ho, run_check_frame.
Qed.

Lemma aud_member_raises (d : claims) (v : pyval) :
  (run_check Issuer d).2 = Return tt →
  d !! "aud" = Some v →
  isinstance_str v = false →
  run_checks (checks_before AudMember) d = (d, Return tt)
  ∧ ((validate d).2 = Raise (SuspiciousOperation "Invalid audience")
     ↔ contains_str v (CLIENT_ID conf) = Return false)
  ∧ (contains_str v (CLIENT_ID conf) = Raise TypeError →
     validate d = (d, Raise TypeError)).
Proof.
  intros Hiss Haud Hstr.
  assert (normalized d = d) as Hnorm.
  { unfold normalized. rewrite Haud. by destruct v. }
  assert (run_checks (checks_before AudMember) d = (d, Return tt)) as Hpre.
  { change (checks_before AudMember) with [Issuer; AudNormalize].
    assert (run_check Issuer d = (d, Return tt)) as Hi
      by by apply run_check_outcome.
    rewrite (run_checks_pass _ _ _ _ _ _ _ _ Hi).
    pose proof (rule_aud_normalize_run conf now nonce vn d) as Hn.
    rewrite Haud, Hnorm in Hn.
    by rewrite (run_checks_pass _ _ _ _ _ _ _ _ Hn). }
  assert (run_check AudMember d
    = (d, match contains_str v (CLIENT_ID conf) with
          | Return true => Return tt
          | Return false => Raise (SuspiciousOperation "Invalid audience")
          | Raise e => Raise e
          end)) as Hrule.
  { simpl. unfold_rules. unfold_monad. rewrite Haud.
    by destruct (contains_str v (CLIENT_ID conf)) as [[]|]. }
  split_and!; [done| |].
  - rewrite (validate_raises_message_iff AudMember _ d d); [|done| |done].
    2: { intros c' Hc'. by destruct c'. }
    rewrite Hrule. cbn [snd].
    destruct (contains_str v (CLIENT_ID conf)) as [[]|e] eqn:Hc;
      split; try done.
    intros [= ->]. by destruct v.
  - intros Herr. rewrite Herr in Hrule.
    destruct (check_order_at AudMember) as [post Hord].
    rewrite validate_claims_run_checks, Hord.
    by rewrite (run_checks_first_failure _ _ _ _ _ _ _ _ _ _ _ Hpre Hrule).
Qed.

(** X6. The audience rule by the type of [aud], once the issuer rule
    has passed: for a list, 'Invalid audience' is raised exactly when no
    entry is the client ID string, so always for the empty list; for a
    JSON object, exactly when the client ID is not one of its keys; for
    a number, a boolean or [null], the validator raises [TypeError]. *)
Theorem audience_by_type (d : claims) :
  (run_check Issuer d).2 = Return tt →
  (∀ l, d !! "aud" = Some (PyList l) →
     ((validate d).2 = Raise (SuspiciousOperation "Invalid audience")
      ↔ PyStr (CLIENT_ID conf) ∉ l))
  ∧ (∀ m, d !! "aud" = Some (PyDict m) →
     ((validate d).2 = Raise (SuspiciousOperation "Invalid audience")
      ↔ m !! CLIENT_ID conf = None))
  ∧ (∀ v, d !! "aud" = Some v → v = PyNone ∨ is_Some (as_int v) →
     validate d = (d, Raise TypeError)).
Proof.
  intros Hiss. split_and!.
  - intros l Haud.
    destruct (aud_member_raises d _ Hiss Haud eq_refl) as (_ & -> & _).
    simpl. rewrite <-existsb_eq_str.
    destruct (existsb _ l); split; done.
  - intros m Haud.
    destruct (aud_member_raises d _ Hiss Haud eq_refl) as (_ & -> & _).
    simpl. case_bool_decide as Hkey; split; try done.
    + intros Hnone. rewrite Hnone in Hkey. by destruct Hkey.
    + intros _. by apply eq_None_not_Some.
  - intros v Haud Hv.
    assert (isinstance_str v = false ∧
            contains_str v (CLIENT_ID conf) = Raise TypeError) as [Hstr Herr].
    { destruct Hv as [->|[z Hz]]; [done|]. by destruct v. }
    by destruct (aud_member_raises d _ Hiss Haud Hstr) as (_ & _ & ->).
Qed.

Lemma known_claims_reads (k : string) (c : check) :
  k ∉ known_claims → k ∉ reads c.
Proof.
  unfold known_claims. intros Hk Hin. apply Hk.
  destruct c; simpl in Hin;
    repeat (apply elem_of_cons in Hin as [->|Hin]; [solve_elem|]);
    by apply elem_of_nil in Hin.
Qed.

(** X7. A claim the validator does not know ([sub], [email], a custom
    claim) neither helps nor harms: adding it or changing its value
    leaves the outcome as it is, and the claim stays in the dictionary. *)
Theorem unknown_claims_are_ignored (d : claims) (k : string) (v : pyval) :
  k ∉ known_claims →
  validate (<[k := v]> d) = (<[k := v]> (validate d).1, (validate d).2).
Proof.
  intros Hk. rewrite !validate_claims_run_checks.
  apply run_checks_insert_other. intros c _. by apply known_claims_reads.
Qed.

End more.

Section varying.
Context `{UrlLib} (conf : settings).

(** The rules before expiry consult neither the clock nor the nonce
    arguments. *)
Lemma early_check_fixed (c : check) (now now' : Z)
    (nonce nonce' : option string) (vn vn' : bool) (d : claims) :
  c ∈ checks_before Expiry →
  run_check conf now nonce vn c d = run_check conf now' nonce' vn' c d
  ∧ run_checks conf now nonce vn (checks_before c) d
    = run_checks conf now' nonce' vn' (checks_before c) d.
Proof.
  intros Hc. change (checks_before Expiry)
    with [Issuer; AudNormalize; AudMember; AzpPresent; AzpMatch] in Hc.
  repeat (apply elem_of_cons in Hc as [->|Hc]; [by split|]).
  by apply elem_of_nil in Hc.
Qed.

(** X8. A failure of the issuer, audience or azp rules does not depend
    on when the token is validated, on the expected nonce or on the
    enforcement flags: the same error is raised for every clock value
    and every nonce argument. *)
Theorem early_failures_ignore_clock_and_nonce
    (now now' : Z) (nonce nonce' : option string) (vn vn' : bool)
    (d d1 : claims) (m : string) :
  _validate_claims conf now nonce vn d
    = (d1, Raise (SuspiciousOperation m)) →
  m ∈ ["Invalid issuer"; "Invalid audience"; "Incorrect id_token: azp"] →
  _validate_claims conf now' nonce' vn' d
    = (d1, Raise (SuspiciousOperation m)).
Proof.
  intros (c & d0 & Hpre & Hc)%validate_raise_inv Hm.
  pose proof (run_check_message _ _ _ _ _ _ _ _ Hc) as Hmsg.
  assert (c ∈ checks_before Expiry) as Hearly.
  { change (checks_before Expiry)
      with [Issuer; AudNormalize; AudMember; AzpPresent; AzpMatch].
    repeat (apply elem_of_cons in Hm as [->|Hm];
      [destruct c; simplify_eq/=; solve_elem|]).
    by apply elem_of_nil in Hm. }
  destruct (early_check_fixed c now now' nonce nonce' vn vn' d Hearly)
    as [_ Hpre'].
  destruct (early_check_fixed c now now' nonce nonce' vn vn' d0 Hearly)
    as [Hc' _].
  rewrite Hpre' in Hpre. rewrite Hc' in Hc.
  destruct (check_order_at c) as [post Hord].
  rewrite validate_claims_run_checks, Hord.
  by eapply run_checks_first_failure.
Qed.

Lemma rule_expiry_raises (now : Z) (nonce : option string) (vn : bool)
    (d d' : claims) :
  run_check conf now nonce vn Expiry d
    = (d', Raise (SuspiciousOperation "Signature has expired")) →
  d' = d ∧ ∃ v e, d !! "exp" = Some v ∧ as_int v = Some e ∧ e < now.
Proof.
  simpl. run_rule. intros Hrun.
  destruct (d !! "exp") as [v|]; simpl in Hrun; [|done].
  destruct (as_int v) as [e|] eqn:He; simpl in Hrun; [|done].
  destruct (Z.ltb_spec e now); simplify_eq; eauto 10.
Qed.

(** X9. Expiry is permanent: a token rejected with 'Signature has
    expired' at one time is rejected with the same error at every later
    time, whatever the nonce arguments. *)
Theorem expired_stays_expired
    (now now' : Z) (nonce nonce' : option string) (vn vn' : bool)
    (d d1 : claims) :
  _validate_claims conf now nonce vn d
    = (d1, Raise (SuspiciousOperation "Signature has expired")) →
  now ≤ now' →
  _validate_claims conf now' nonce' vn' d
    = (d1, Raise (SuspiciousOperation "Signature has expired")).
Proof.
  intros (c & d0 & Hpre & Hc)%validate_raise_inv Hle.
  pose proof (run_check_message _ _ _ _ _ _ _ _ Hc) as Hmsg.
  assert (c = Expiry) as -> by (by destruct c).
  apply rule_expiry_raises in Hc as (-> & v & e & Hexp & He & Hlt).
  rewrite validate_claims_run_checks.
  change check_order
    with (checks_before Expiry ++ Expiry :: [NotBefore; IssuedAt; Nonce]).
  eapply run_checks_first_failure; [exact Hpre|].
  rewrite (rule_expiry_run conf now' nonce' vn' d0 v e Hexp He).
  by rewrite (proj2 (Z.ltb_lt e now')) by lia.
Qed.

Lemma accepted_between (t1 t t2 : Z) (nonce : option string) (vn : bool)
    (d : claims) :
  accepted conf t1 nonce vn d → accepted conf t2 nonce vn d →
  t1 ≤ t ≤ t2 → accepted conf t nonce vn d.
Proof.
  intros (Hi & Ha & Hz & _ & Hn1 & _ & Hno) (_ & _ & _ & He2 & _ & Hf2 & _) Ht.
  split_and!; try done.
  - destruct He2 as (v & e & ? & ? & ?). exists v, e. split_and!; [done..|lia].
  - intros b Hb. destruct (Hn1 b Hb) as (n & ? & ?). exists n.
    split; [done|lia].
  - destruct Hf2 as (v & i & ? & ? & ?). exists v, i. split_and!; [done..|lia].
Qed.

(** X10. The times at which a token is accepted form an interval: a
    token that validates at [t1] and at [t2] validates at every time in
    between. *)
Theorem acceptance_window_convex (t1 t t2 : Z) (nonce : option string)
    (vn : bool) (d : claims) :
  (_validate_claims conf t1 nonce vn d).2 = Return tt →
  (_validate_claims conf t2 nonce vn d).2 = Return tt →
  t1 ≤ t ≤ t2 →
  _validate_claims conf t nonce vn d = (normalized d, Return tt).
Proof.
  intros H1 H2 Ht.
  apply (proj1 (proj2 (validate_accepts conf t1 nonce vn d))) in H1.
  apply (proj1 (proj2 (validate_accepts conf t2 nonce vn d))) in H2.
  apply (proj2 (proj1 (validate_accepts conf t nonce vn d))).
  exact (accepted_between t1 t t2 nonce vn _ H1 H2 Ht).
Qed.

(** X11. Without enforcement ([validate_nonce] false or [USE_NONCE]
    off) the nonce plays no part: the expected nonce can be anything,
    and so can the token's [nonce] claim. *)
Theorem unenforced_nonce_is_ignored (now : Z) (nonce nonce' : option string)
    (vn : bool) (d : claims) (v : pyval) :
  vn && USE_NONCE conf = false →
  _validate_claims conf now nonce vn d = _validate_claims conf now nonce' vn d
  ∧ _validate_claims conf now nonce vn (<["nonce" := v]> d)
    = (<["nonce" := v]> (_validate_claims conf now nonce vn d).1,
       (_validate_claims conf now nonce vn d).2).
Proof.
  intros Hoff.
  assert (∀ n d0, run_check conf now n vn Nonce d0 = (d0, Return tt)) as Hrule.
  { intros n d0. by rewrite rule_nonce_run, Hoff. }
  assert (∀ n d0, _validate_claims conf now n vn d0
    = run_checks conf now None vn (checks_before Nonce) d0) as Hval.
  { intros n d0. rewrite validate_claims_run_checks.
    change check_order with (checks_before Nonce ++ [Nonce]).
    rewrite run_checks_app.
    change (run_checks conf now n vn (checks_before Nonce) d0)
      with (run_checks conf now None vn (checks_before Nonce) d0).
    destruct (run_checks conf now None vn (checks_before Nonce) d0)
      as [d1 [[]|e]]; [|done].
    by rewrite (run_checks_pass _ _ _ _ _ _ _ _ (Hrule n d1)). }
  split; [by rewrite !Hval|].
  rewrite !Hval. apply run_checks_insert_other.
  intros c Hc. change (checks_before Nonce)
    with [Issuer; AudNormalize; AudMember; AzpPresent; AzpMatch; Expiry;
          NotBefore; IssuedAt] in Hc.
  repeat (apply elem_of_cons in Hc as [->|Hc]; [simpl; solve_not_elem|]).
  by apply elem_of_nil in Hc.
Qed.

(** C8, as the code has it. A failing validation raises the error of its
    first failing rule. That error is a [SuspiciousOperation] with the
    message of the rule, or else a [KeyError], [TypeError],
    [AttributeError] or [ValueError]: not every failure has the same
    type. Failures raised as [SuspiciousOperation] are told apart by
    their message only, and two of them carry the same message exactly
    when they come from the same rule or from the two azp rules: a
    multi-audience token without [azp] and a token with a foreign [azp]
    raise the same error. *)
Theorem claim_failures_by_kind
    (now1 now2 : Z) (nonce1 nonce2 : option string) (vn1 vn2 : bool)
    (d1 d1' d2 d2' : claims) (e1 e2 : exn) :
  _validate_claims conf now1 nonce1 vn1 d1 = (d1', Raise e1) →
  _validate_claims conf now2 nonce2 vn2 d2 = (d2', Raise e2) →
  validator_error e1 ∧ validator_error e2
  ∧ ∃ c1 c2 s1 s2,
      run_checks conf now1 nonce1 vn1 (checks_before c1) d1 = (s1, Return tt)
      ∧ run_check conf now1 nonce1 vn1 c1 s1 = (d1', Raise e1)
      ∧ run_checks conf now2 nonce2 vn2 (checks_before c2) d2 = (s2, Return tt)
      ∧ run_check conf now2 nonce2 vn2 c2 s2 = (d2', Raise e2)
      ∧ (∀ m, e1 = SuspiciousOperation m → failure_message c1 = Some m)
      ∧ (∀ m, e2 = SuspiciousOperation m → failure_message c2 = Some m)
      ∧ (∀ m1 m2,
           e1 = SuspiciousOperation m1 → e2 = SuspiciousOperation m2 →
           (m1 = m2 ↔
              c1 = c2
              ∨ (c1 = AzpPresent ∧ c2 = AzpMatch)
              ∨ (c1 = AzpMatch ∧ c2 = AzpPresent))).
Proof.
  intros Hv1 Hv2.
  pose proof (validate_raises_validator_error _ _ _ _ _ _ _ Hv1) as He1.
  pose proof (validate_raises_validator_error _ _ _ _ _ _ _ Hv2) as He2.
  apply validate_raise_inv in Hv1 as (c1 & s1 & Hpre1 & Hc1).
  apply validate_raise_inv in Hv2 as (c2 & s2 & Hpre2 & Hc2).
  split_and!; [done..|].
  exists c1, c2, s1, s2. split_and!; [done..| | |].
  - intros m ->. by eapply run_check_message.
  - intros m ->. by eapply run_check_message.
  - intros m1 m2 -> ->.
    pose proof (run_check_message _ _ _ _ _ _ _ _ Hc1) as Hm1.
    pose proof (run_check_message _ _ _ _ _ _ _ _ Hc2) as Hm2.
    split.
    + intros <-. destruct c1, c2; simplify_eq/=; auto.
    + intros [<-|[[-> ->]|[-> ->]]]; simplify_eq/=; congruence.
Qed.

End varying.

(** ** Further properties of [validate_and_return_id_token] *)

Section token_more.
Context `{UrlLib} {K : Type} `{JwkestLib K} (conf : settings).
Context (now : Z) (nonce : option string) (vn : bool).

#[local] Abbreviation id_token_of jws :=
  (validate_and_return_id_token conf now jws nonce vn).

(** X12. [None] is the answer to a [JWKESTException] and to nothing
    else: it is returned exactly when loading the keys or verifying the
    token raised one. A claim violation never gives [None]. *)
Theorem none_iff_jwkest_exception (jws : string) :
  id_token_of jws = Return None
  ↔ (∃ kind,
       _get_jwks_keys conf (shared_key conf) = Raise (JWKESTException kind))
    ∨ (∃ keys kind,
         _get_jwks_keys conf (shared_key conf) = Return keys
         ∧ verify_compact (force_bytes jws) keys
           = Raise (JWKESTException kind)).
Proof.
  unfold validate_and_return_id_token. cbn zeta.
  destruct (_get_jwks_keys conf (shared_key conf)) as [keys|e] eqn:Hkeys;
    simpl.
  - destruct (verify_compact (force_bytes jws) keys) as [tok|e] eqn:Hver.
    + destruct (_validate_claims conf now nonce vn tok) as [d [[]|e]].
      * split; [done|]. intros [(? & ?)|(? & ? & [= <-] & ?)]; congruence.
      * split; [done|]. intros [(? & ?)|(? & ? & [= <-] & ?)]; congruence.
    + destruct e; try (split; [done|];
        intros [(? & ?)|(? & ? & [= <-] & ?)]; congruence).
      split; [|done]. intros _. right. eauto.
  - destruct e; try (split; [done|];
      intros [(? & ?)|(? & ? & ? & ?)]; congruence).
    split; [|done]. intros _. left. eauto.
Qed.

(** X13. No [JWKESTException] leaves the function: those of the
    libraries are caught, and the claim validator raises none. *)
Theorem jwkest_exception_never_escapes (jws : string) (kind : jwkest_kind) :
  id_token_of jws ≠ Raise (JWKESTException kind).
Proof.
  unfold validate_and_return_id_token. cbn zeta.
  destruct (_get_jwks_keys conf (shared_key conf)) as [keys|e] eqn:Hkeys;
    simpl; [|by destruct e].
  destruct (verify_compact (force_bytes jws) keys) as [tok|e] eqn:Hver;
    [|by destruct e].
  destruct (_validate_claims conf now nonce vn tok) as [d [[]|e]] eqn:Hval;
    [done|].
  apply validate_raises_validator_error in Hval. intros [= ->]. done.
Qed.


End token_more.

(** ** The further properties on concrete tokens *)

Module CasesWitness.
Import Scenario Cases.

Lemma validate_error_vocabulary_witness :
  validator_error (KeyError "exp").
Proof.
  refine (validate_error_vocabulary (H := cpython_urllib) conf now
    (Some "abc123") true no_exp no_exp (KeyError "exp") _).
  reflexivity.
Defined.

Lemma not_before_rule_witness :
  (validate (Some "abc123") true early).2
  = Raise (SuspiciousOperation "Incorrect id_token: nbf").
Proof.
  refine (proj2 (proj1 (proj1 (not_before_rule (H := cpython_urllib) conf now
    (Some "abc123") true early early _) (PyInt (now + 1)) (now + 1) _ _)) _);
    [reflexivity..|unfold now; lia].
Defined.

Lemma issued_at_rule_witness :
  (validate (Some "abc123") true stale).2
  = Raise (SuspiciousOperation "Incorrect id_token: iat").
Proof.
  refine (proj2 (proj1 (issued_at_rule (H := cpython_urllib) conf now
    (Some "abc123") true stale stale (PyInt (now - 601)) (now - 601)
    _ _ _)) _); [reflexivity..|simpl; unfold now; lia].
Defined.

Lemma audience_by_type_witness :
  (validate (Some "abc123") true empty_aud).2
  = Raise (SuspiciousOperation "Invalid audience").
Proof.
  refine (proj2 (proj1 (audience_by_type (H := cpython_urllib) conf now
    (Some "abc123") true empty_aud _) [] _) _); [reflexivity..|].
  apply not_elem_of_nil.
Defined.

Lemma unknown_claims_are_ignored_witness :
  validate (Some "abc123") true with_sub = (with_sub, Return tt).
Proof.
  refine (unknown_claims_are_ignored (H := cpython_urllib) conf now
    (Some "abc123") true good "sub" (PyStr "alice") _).
  exact (bool_decide_unpack ("sub" ∉ known_claims) I).
Defined.

Lemma early_failures_ignore_clock_and_nonce_witness :
  validate_at 0 None false foreign_iss
  = (foreign_iss, Raise (SuspiciousOperation "Invalid issuer")).
Proof.
  refine (early_failures_ignore_clock_and_nonce (H := cpython_urllib) conf
    now 0 (Some "abc123") None true false foreign_iss foreign_iss
    "Invalid issuer" _ _); [reflexivity|].
  apply list_elem_of_here.
Defined.

Lemma expired_stays_expired_witness :
  validate_at (now + 86400) None false expired
  = (expired, Raise (SuspiciousOperation "Signature has expired")).
Proof.
  refine (expired_stays_expired (H := cpython_urllib) conf now (now + 86400)
    (Some "abc123") None true false expired expired _ _);
    [reflexivity|unfold now; lia].
Defined.

Lemma acceptance_window_convex_witness :
  validate_at (now + 300) (Some "abc123") true bare_aud
  = (good, Return tt).
Proof.
  refine (acceptance_window_convex (H := cpython_urllib) conf now (now + 300)
    (now + 590) (Some "abc123") true bare_aud _ _ _);
    [reflexivity..|unfold now; lia].
Defined.

Lemma unenforced_nonce_is_ignored_witness :
  validate None false good = validate (Some "other") false good.
Proof.
  refine (proj1 (unenforced_nonce_is_ignored (H := cpython_urllib) conf now
    None (Some "other") false good PyNone _)).
  reflexivity.
Defined.


Lemma validate_returns_iff_accepted_witness :
  accepted (H := cpython_urllib) conf now (Some "abc123") true
    (normalized bare_aud).
Proof.
  refine (proj1 (proj2 (validate_returns_iff_accepted (H := cpython_urllib)
    conf now (Some "abc123") true bare_aud _)) _); reflexivity.
Defined.

(** A token of a foreign issuer and a token without [exp]: the first
    fails with a [SuspiciousOperation], the second with a [KeyError]. *)
Lemma claim_failures_by_kind_witness :
  validator_error (SuspiciousOperation "Invalid issuer")
  ∧ validator_error (KeyError "exp").
Proof.
  destruct (claim_failures_by_kind (H := cpython_urllib) conf now now
    (Some "abc123") (Some "abc123") true true
    foreign_iss foreign_iss no_exp no_exp
    (SuspiciousOperation "Invalid issuer") (KeyError "exp"))
    as (Hfirst & Hsecond & _); [reflexivity..|].
  exact (conj Hfirst Hsecond).
Defined.

(** The exact limits of the time rules. *)
Example iat_at_the_limit_passes :
  validate (Some "abc123") true (<["iat" := PyInt (now - 600)]> good)
  = (<["iat" := PyInt (now - 600)]> good, Return tt).
Proof. reflexivity. Qed.

Example nbf_at_now_passes :
  validate (Some "abc123") true (<["nbf" := PyInt now]> good)
  = (<["nbf" := PyInt now]> good, Return tt).
Proof. reflexivity. Qed.

(** A JSON object as [aud] is tested on its keys. *)
Example object_audience_passes :
  validate (Some "abc123") true
    (<["aud" := PyDict {["clientA" := PyBool true]}]> good)
  = (<["aud" := PyDict {["clientA" := PyBool true]}]> good, Return tt).
Proof. reflexivity. Qed.

Example integer_audience :
  validate (Some "abc123") true (<["aud" := PyInt 7]> good)
  = (<["aud" := PyInt 7]> good, Raise TypeError).
Proof. reflexivity. Qed.

End CasesWitness.
